(** * Registration and capacity engine of the campus-events backend

    A shallow embedding of
      - [backend/models/Event.js]        (capacity fields, virtuals, eligibility),
      - [backend/models/Registration.js] (status enum, instance methods, indexes),
      - [backend/models/User.js]         ([hasPermission]),
      - [backend/routes/registrations.js] (the five mutating routes),
      - the browser-side [WebSocketService] (join / leave frames),
    followed by the properties of the registration and capacity engine.

    Conventions.
      - A MongoDB [ObjectId] is its 24-character hexadecimal string.
      - JavaScript numbers that hold counts, capacities and instants
        (milliseconds since the epoch) are integers here ([Z]).
      - Every [await] of a route handler is one node of a program tree
        ([Prog]); the code between two awaits runs to completion, as it does
        on the Node.js event loop.  Running one tree alone gives the handler's
        sequential behaviour, interleaving several trees gives the behaviour
        of concurrent requests. *)

From stdpp Require Import base option list gmap strings.
From Stdlib Require Import ZArith Lia.

Local Open Scope Z_scope.

Abbreviation ObjectId := string.

(** ** Users ([models/User.js]) *)

Inductive Role :=
| role_student | role_faculty | role_organizer | role_admin
| role_authority | role_hod | role_principal | role_registrar.

#[global] Instance Role_eq_dec : EqDecision Role.
Proof. solve_decision. Defined.

Module User.
Record t := mk {
  _id : ObjectId;
  role : Role;
  department : option ObjectId;
  year : option Z;
  permissions : list string
}.

(** [userSchema.methods.hasPermission] *)
Definition hasPermission (this : t) (permission : string) : bool :=
  bool_decide (permission ∈ permissions this).
End User.

(** ** Events ([models/Event.js]) *)

Module Event.
Inductive Status :=
| draft | pending | approved | published | cancelled | completed.

#[global] Instance Status_eq_dec : EqDecision Status.
Proof. solve_decision. Defined.

(** The [registration] sub-document. *)
Record Reg := mkReg {
  maxCapacity : Z;
  currentCount : Z;
  approvalRequired : bool;
  deadline : option Z;
  fee_amount : Z;
  allowedRoles : list Role;
  allowedDepartments : list ObjectId;
  allowedYears : list Z
}.

(** An event document; its [_id] is its key in the collection. *)
Record t := mk {
  organizer : ObjectId;
  coOrganizers : list ObjectId;
  registration : Reg;
  status : Status
}.

(** [eventSchema.virtual('availableSlots')] *)
Definition availableSlots (this : t) : Z :=
  Z.max 0 (maxCapacity (registration this) - currentCount (registration this)).

(** [eventSchema.virtual('isFull')] *)
Definition isFull (this : t) : bool :=
  currentCount (registration this) >=? maxCapacity (registration this).

(** [eventSchema.methods.canUserRegister] *)
Definition canUserRegister (this : t) (user : User.t) : bool :=
  let r := registration this in
  if (0 <? Z.of_nat (length (allowedRoles r)))
     && negb (bool_decide (User.role user ∈ allowedRoles r))
  then false
  else if (0 <? Z.of_nat (length (allowedDepartments r)))
          && negb (match User.department user with
                   | Some d => bool_decide (d ∈ allowedDepartments r)
                   | None => false
                   end)
  then false
  else if (0 <? Z.of_nat (length (allowedYears r)))
          && negb (match User.year user with
                   | Some y => bool_decide (y ∈ allowedYears r)
                   | None => false
                   end)
  then false
  else true.

(** The update [{ $inc: { 'registration.currentCount': delta } }]. *)
Definition inc_currentCount (delta : Z) (this : t) : t :=
  let r := registration this in
  mk (organizer this) (coOrganizers this)
     (mkReg (maxCapacity r) (currentCount r + delta) (approvalRequired r)
            (deadline r) (fee_amount r) (allowedRoles r)
            (allowedDepartments r) (allowedYears r))
     (status this).
End Event.

(** ** Registrations ([models/Registration.js]) *)

Module Registration.
Inductive Status :=
| pending | approved | rejected | cancelled | attended | absent.

#[global] Instance Status_eq_dec : EqDecision Status.
Proof. solve_decision. Defined.

Inductive PaymentStatus := pay_pending | pay_completed | pay_failed | pay_refunded.

Record Payment := mkPayment {
  required : bool;
  amount : option Z;
  pay_status : PaymentStatus
}.

Record Location := mkLocation { latitude : Z; longitude : Z }.

Record CheckIn := mkCheckIn {
  time : option Z;
  location : option Location
}.

(** The fields the registration routes read or write.  [feedback],
    [certificate], [preferences], [checkOut] and [notes] are carried by the
    documents but never inspected by these routes. *)
Record t := mk {
  _id : ObjectId;
  user : ObjectId;
  event : ObjectId;
  status : Status;
  registrationDate : Z;
  approvedBy : option ObjectId;
  approvedAt : option Z;
  rejectionReason : option string;
  cancellationReason : option string;
  attendanceMarked : bool;
  attendanceTime : option Z;
  payment : Payment;
  checkIn : CheckIn
}.

(** The in-memory assignments of [registrationSchema.methods.approve];
    the [save()] that follows is an awaited store operation. *)
Definition approve (approver : User.t) (now : Z) (this : t) : t :=
  mk (_id this) (user this) (event this) approved (registrationDate this)
     (Some (User._id approver)) (Some now) (rejectionReason this)
     (cancellationReason this) (attendanceMarked this) (attendanceTime this)
     (payment this) (checkIn this).

(** [registrationSchema.methods.reject] *)
Definition reject (reason : option string) (approver : User.t) (now : Z)
    (this : t) : t :=
  mk (_id this) (user this) (event this) rejected (registrationDate this)
     (Some (User._id approver)) (Some now) reason
     (cancellationReason this) (attendanceMarked this) (attendanceTime this)
     (payment this) (checkIn this).

(** [registrationSchema.methods.markAttendance]; [present] arrives already
    defaulted ([present = true] when the argument is [undefined]). *)
Definition markAttendance (present : bool) (now : Z) (this : t) : t :=
  mk (_id this) (user this) (event this)
     (if present then attended else absent) (registrationDate this)
     (approvedBy this) (approvedAt this) (rejectionReason this)
     (cancellationReason this) true (Some now) (payment this)
     (if present && negb (bool_decide (is_Some (time (checkIn this))))
      then mkCheckIn (Some now) (location (checkIn this))
      else checkIn this).

(** [registration.checkIn.location = location] *)
Definition set_checkIn_location (l : Location) (this : t) : t :=
  mk (_id this) (user this) (event this) (status this)
     (registrationDate this) (approvedBy this) (approvedAt this)
     (rejectionReason this) (cancellationReason this)
     (attendanceMarked this) (attendanceTime this) (payment this)
     (mkCheckIn (time (checkIn this)) (Some l)).

(** The two assignments of the cancel route. *)
Definition cancel (reason : option string) (this : t) : t :=
  mk (_id this) (user this) (event this) cancelled (registrationDate this)
     (approvedBy this) (approvedAt this) (rejectionReason this) reason
     (attendanceMarked this) (attendanceTime this) (payment this)
     (checkIn this).
End Registration.

(** ** The store *)

Record DB := mkDB {
  events : gmap string Event.t;
  registrations : list Registration.t   (* in insertion (natural) order *)
}.

(** A MongoDB filter over the registration collection: each field is either
    absent or a constraint, as in [{ event: eventId, status: { $in: [...] } }]. *)
Record Query := mkQuery {
  q_id_in : option (list ObjectId);
  q_user : option ObjectId;
  q_event : option ObjectId;
  q_status : option Registration.Status;
  q_status_in : option (list Registration.Status)
}.

(** Whether a document satisfies a filter. *)
Definition matches (q : Query) (r : Registration.t) : bool :=
  match q_id_in q with
  | Some ids => bool_decide (Registration._id r ∈ ids) | None => true end
  && match q_user q with
     | Some u => bool_decide (Registration.user r = u) | None => true end
  && match q_event q with
     | Some e => bool_decide (Registration.event r = e) | None => true end
  && match q_status q with
     | Some s => bool_decide (Registration.status r = s) | None => true end
  && match q_status_in q with
     | Some ss => bool_decide (Registration.status r ∈ ss) | None => true end.

(** [populate('event')]: the referenced document, or [null]. *)
Definition populate_event (db : DB) (r : Registration.t)
  : Registration.t * option Event.t :=
  (r, events db !! Registration.event r).

(** The unique indexes of the registration collection: [_id], and
    [{ user: 1, event: 1 }, { unique: true }]. *)
Definition duplicate_key (doc : Registration.t) (rs : list Registration.t) : bool :=
  existsb (fun r =>
    bool_decide (Registration._id r = Registration._id doc)
    || (bool_decide (Registration.user r = Registration.user doc)
        && bool_decide (Registration.event r = Registration.event doc))) rs.

(** Writing the modified paths of a loaded document back: the stored
    document with that [_id] receives the assignments [f]. *)
Definition update_by_id (id : ObjectId) (f : Registration.t → Registration.t)
    (rs : list Registration.t) : list Registration.t :=
  map (fun r => if bool_decide (Registration._id r = id) then f r else r) rs.

(** One call of the capacity counter: which event, by how much, and the
    registration bound to [registration] at the call site.  The last field
    is a label only; it never influences execution. *)
Record LedgerCall := mkLedgerCall {
  lc_event : ObjectId;
  lc_delta : Z;
  lc_registration : ObjectId
}.

(** ** Awaited store operations *)

(** The store operations the routes await, each with the type of what it
    resolves to.  [Registration_save_new] is [save()] on a new document and
    resolves to the driver's error, if any; [Registration_save] is [save()]
    on a loaded document after the assignments [f].  The last argument of
    the increment is the label of [LedgerCall]. *)
Inductive DbOp : Type → Type :=
| Event_findById (id : ObjectId) : DbOp (option Event.t)
| Event_findByIdAndUpdate_inc (id : ObjectId) (delta : Z) (onBehalfOf : ObjectId)
    : DbOp unit
| Registration_findOne (q : Query) : DbOp (option Registration.t)
| Registration_countDocuments (q : Query) : DbOp Z
| Registration_save_new (doc : Registration.t) : DbOp (option string)
| Registration_save (id : ObjectId) (f : Registration.t → Registration.t)
    : DbOp unit
| Registration_findById_populate (id : ObjectId)
    : DbOp (option (Registration.t * option Event.t))
| Registration_find_populate (q : Query)
    : DbOp (list (Registration.t * option Event.t))
| Registration_populate (doc : Registration.t) : DbOp unit.

(** What one operation does to the store, the counter calls it makes, and
    what it resolves to. *)
Definition exec {A} (op : DbOp A) (db : DB) : DB * list LedgerCall * A :=
  match op in DbOp A return DB * list LedgerCall * A with
  | Event_findById id => (db, [], events db !! id)
  | Event_findByIdAndUpdate_inc id delta who =>
      (mkDB (alter (Event.inc_currentCount delta) id (events db))
            (registrations db),
       [mkLedgerCall id delta who], tt)
  | Registration_findOne q =>
      (db, [], List.find (matches q) (registrations db))
  | Registration_countDocuments q =>
      (db, [], Z.of_nat (length (List.filter (matches q) (registrations db))))
  | Registration_save_new doc =>
      if duplicate_key doc (registrations db)
      then (db, [], Some "E11000 duplicate key error")
      else (mkDB (events db) (registrations db ++ [doc]), [], None)
  | Registration_save id f =>
      (mkDB (events db) (update_by_id id f (registrations db)), [], tt)
  | Registration_findById_populate id =>
      (db, [],
       populate_event db <$>
         List.find (fun r => bool_decide (Registration._id r = id))
                   (registrations db))
  | Registration_find_populate q =>
      (db, [], populate_event db <$> List.filter (matches q) (registrations db))
  | Registration_populate _ => (db, [], tt)
  end.

(** ** Handler programs *)

(** An async handler: it returns, throws, or awaits a store operation and
    goes on with what the operation resolved to. *)
Inductive Prog (R : Type) : Type :=
| Ret (r : R)
| Throw (error : string)
| Await {A : Type} (op : DbOp A) (k : A → Prog R).

Arguments Ret {R} r.
Arguments Throw {R} error.
Arguments Await {R A} op k.

(** Sequencing of two programs. *)
Fixpoint bind {R S} (p : Prog R) (f : R → Prog S) : Prog S :=
  match p with
  | Ret r => f r
  | Throw e => Throw e
  | Await op k => Await op (fun a => bind (k a) f)
  end.

(** [try { p } catch (error) { h error }] *)
Fixpoint try_catch {R} (p : Prog R) (h : string → Prog R) : Prog R :=
  match p with
  | Ret r => Ret r
  | Throw e => h e
  | Await op k => Await op (fun a => try_catch (k a) h)
  end.

Notation "'let_await' x ':=' op ;; k" := (Await op (fun x => k))
  (at level 10, x name, op at level 99, k at level 200, only parsing).
Notation "'do_await' op ;; k" := (Await op (fun _ => k))
  (at level 10, op at level 99, k at level 200, only parsing).

(** How a program ends, with the store it leaves and the counter calls it
    made. *)
Inductive Result (R : Type) := Done (r : R) | Uncaught (error : string).
Arguments Done {R} r.
Arguments Uncaught {R} error.

Record Outcome (R : Type) := mkOutcome {
  out_db : DB;
  out_ledger : list LedgerCall;
  out_result : Result R
}.
Arguments mkOutcome {R}.
Arguments out_db {R}.
Arguments out_ledger {R}.
Arguments out_result {R}.

(** A request served with no other request in flight. *)
Fixpoint run_from {R} (p : Prog R) (db : DB) (log : list LedgerCall) : Outcome R :=
  match p with
  | Ret r => mkOutcome db log (Done r)
  | Throw e => mkOutcome db log (Uncaught e)
  | Await op k =>
      let '(db', calls, a) := exec op db in
      run_from (k a) db' (log ++ calls)
  end.

Definition run {R} (p : Prog R) (db : DB) : Outcome R := run_from p db [].

(** ** HTTP responses and socket emissions *)

Record BulkResult := mkBulkResult {
  br_id : ObjectId;
  br_success : bool;
  br_error : option string
}.

Inductive ResponseData :=
| no_data
| data_registration (registration : Registration.t)
| data_results (results : list BulkResult).

(** [res.status(code).json({ success, message, error, data })] *)
Record Response := mkResponse {
  res_status : Z;
  res_success : bool;
  res_message : string;
  res_error : option string;
  res_data : ResponseData
}.

Definition failure (code : Z) (message : string) : Response :=
  mkResponse code false message None no_data.

Definition server_error (message error : string) : Response :=
  mkResponse 500 false message (Some error) no_data.

Definition success (code : Z) (message : string) (data : ResponseData) : Response :=
  mkResponse code true message None data.

(** [req.io.to(room).emit(name, payload)] and [req.io.emit(name, payload)] *)
Inductive Emission :=
| emit_new_registration (room : string) (registration : Registration.t)
    (eventId : ObjectId) (currentCount : Z)
| emit_registration_approval_needed (registration : Registration.t)
| emit_registration_status_updated (room : string)
    (registration : Registration.t) (approved : bool)
| emit_attendance_marked (room : string) (registration : Registration.t)
    (present : option bool)
| emit_registration_cancelled (room : string) (registration : Registration.t).

Definition room_of (eventId : ObjectId) : string := "event-" +:+ eventId.

Abbreviation Handler := (Prog (Response * list Emission)).

(** The replies the registration route can give before it writes anything. *)
Definition EventNotFound := failure 404 "Event not found".
Definition EventNotAdmitting := failure 400 "Event is not available for registration".
Definition NotEligible := failure 403 "You are not eligible to register for this event".
Definition AlreadyRegistered := failure 400 "You are already registered for this event".
Definition DeadlinePassed := failure 400 "Registration deadline has passed".
Definition EventFull := failure 400 "Event is full".

(** ** [router.post('/')]: register

    [user] is [req.user] as left by the authentication middleware, [now] the
    value of [new Date()], and [newId] the [_id] the driver assigns to the
    new document. *)

Definition user_event_query (userId eventId : ObjectId) : Query :=
  mkQuery None (Some userId) (Some eventId) None None.

Definition admission_query (eventId : ObjectId) : Query :=
  mkQuery None None (Some eventId) None
          (Some [Registration.approved; Registration.pending]).

Definition registrationData (user : User.t) (eventId : ObjectId)
    (event : Event.t) (now : Z) (newId : ObjectId) : Registration.t :=
  let reg := Event.registration event in
  Registration.mk newId (User._id user) eventId
    (if Event.approvalRequired reg
     then Registration.pending else Registration.approved)
    now None None None None false None
    (if 0 <? Event.fee_amount reg
     then Registration.mkPayment true (Some (Event.fee_amount reg))
                                 Registration.pay_pending
     else Registration.mkPayment false None Registration.pay_pending)
    (Registration.mkCheckIn None None).

Definition register_body (user : User.t) (eventId : ObjectId) (now : Z)
    (newId : ObjectId) : Handler :=
  let_await event := Event_findById eventId ;;
  match event with
  | None => Ret (EventNotFound, [])
  | Some event =>
    if negb (bool_decide (Event.status event = Event.published))
    then Ret (EventNotAdmitting, [])
    else if negb (Event.canUserRegister event user)
    then Ret (NotEligible, [])
    else
      let_await existingRegistration :=
        Registration_findOne (user_event_query (User._id user) eventId) ;;
      if bool_decide (is_Some existingRegistration)
      then Ret (AlreadyRegistered, [])
      else if match Event.deadline (Event.registration event) with
              | Some deadline => deadline <? now
              | None => false
              end
      then Ret (DeadlinePassed, [])
      else
        let_await currentRegistrations :=
          Registration_countDocuments (admission_query eventId) ;;
        if currentRegistrations >=? Event.maxCapacity (Event.registration event)
        then Ret (EventFull, [])
        else
          let registration := registrationData user eventId event now newId in
          let_await saved := Registration_save_new registration ;;
          match saved with
          | Some error => Throw error
          | None =>
            do_await Event_findByIdAndUpdate_inc eventId 1 newId ;;
            do_await Registration_populate registration ;;
            Ret (success 201 "Registration successful"
                         (data_registration registration),
                 emit_new_registration (room_of eventId) registration eventId
                                       (currentRegistrations + 1)
                 :: (if Event.approvalRequired (Event.registration event)
                     then [emit_registration_approval_needed registration]
                     else []))
          end
  end.

Definition register (user : User.t) (eventId : ObjectId) (now : Z)
    (newId : ObjectId) : Handler :=
  try_catch (register_body user eventId now newId)
            (fun error => Ret (server_error "Registration failed" error, [])).

(** ** [router.put('/:id/approve')]: decide *)

(** The authority test shared by the approve and attendance routes. *)
Definition canApprove (event : Event.t) (actor : User.t) : bool :=
  bool_decide (Event.organizer event = User._id actor)
  || bool_decide (User._id actor ∈ Event.coOrganizers event)
  || User.hasPermission actor "approve_events"
  || bool_decide (User.role actor = role_admin).

Definition null_event_error (field : string) : string :=
  "Cannot read properties of null (reading '" +:+ field +:+ "')".

Definition NotPending := failure 400 "Registration is not pending approval".
Definition RegistrationNotFound := failure 404 "Registration not found".

Definition approval_body (actor : User.t) (id : ObjectId) (approved : bool)
    (reason : option string) (now : Z) : Handler :=
  let_await found := Registration_findById_populate id ;;
  match found with
  | None => Ret (RegistrationNotFound, [])
  | Some (registration, None) => Throw (null_event_error "organizer")
  | Some (registration, Some event) =>
    if negb (canApprove event actor)
    then Ret (failure 403 "Not authorized to approve registrations", [])
    else if negb (bool_decide
                    (Registration.status registration = Registration.pending))
    then Ret (NotPending, [])
    else if approved then
      do_await Registration_save id (Registration.approve actor now) ;;
      Ret (success 200 "Registration approved successfully"
             (data_registration (Registration.approve actor now registration)),
           [emit_registration_status_updated
              (room_of (Registration.event registration))
              (Registration.approve actor now registration) approved])
    else
      do_await Registration_save id (Registration.reject reason actor now) ;;
      do_await Event_findByIdAndUpdate_inc (Registration.event registration) (-1) id ;;
      Ret (success 200 "Registration rejected successfully"
             (data_registration (Registration.reject reason actor now registration)),
           [emit_registration_status_updated
              (room_of (Registration.event registration))
              (Registration.reject reason actor now registration) approved])
  end.

Definition approval (actor : User.t) (id : ObjectId) (approved : bool)
    (reason : option string) (now : Z) : Handler :=
  try_catch (approval_body actor id approved reason now)
    (fun error =>
       Ret (server_error "Failed to process registration approval" error, [])).

(** ** [router.put('/:id/attendance')]: mark attendance

    [present] is [None] when the body carries no such field, otherwise the
    truthiness of the value sent. *)

Definition truthy (b : option bool) : bool := default false b.

Definition attendance_body (actor : User.t) (id : ObjectId)
    (present : option bool) (location : option Registration.Location)
    (now : Z) : Handler :=
  let_await found := Registration_findById_populate id ;;
  match found with
  | None => Ret (RegistrationNotFound, [])
  | Some (registration, None) => Throw (null_event_error "organizer")
  | Some (registration, Some event) =>
    if negb (canApprove event actor)
    then Ret (failure 403 "Not authorized to mark attendance", [])
    else if negb (bool_decide
                    (Registration.status registration = Registration.approved))
    then Ret (failure 400 "Can only mark attendance for approved registrations", [])
    else
      let marked := Registration.markAttendance (default true present) now in
      let reply (r : Registration.t) : Response * list Emission :=
        (success 200 (if truthy present then "Attendance marked as present"
                      else "Attendance marked as absent")
                 (data_registration r),
         [emit_attendance_marked (room_of (Registration.event registration))
                                 r present]) in
      do_await Registration_save id marked ;;
      match location with
      | Some l =>
        if truthy present then
          do_await Registration_save id (Registration.set_checkIn_location l) ;;
          Ret (reply (Registration.set_checkIn_location l (marked registration)))
        else Ret (reply (marked registration))
      | None => Ret (reply (marked registration))
      end
  end.

Definition attendance (actor : User.t) (id : ObjectId) (present : option bool)
    (location : option Registration.Location) (now : Z) : Handler :=
  try_catch (attendance_body actor id present location now)
    (fun error => Ret (server_error "Failed to mark attendance" error, [])).

(** ** [router.delete('/:id')]: cancel *)

(** [canCancel]; [None] when evaluating it dereferences a [null] event
    (the registrant test comes first and short-circuits). *)
Definition canCancel (registration : Registration.t) (event : option Event.t)
    (actor : User.t) : option bool :=
  if bool_decide (Registration.user registration = User._id actor)
  then Some true
  else match event with
       | None => None
       | Some event =>
           Some (bool_decide (Event.organizer event = User._id actor)
                 || bool_decide (User.role actor = role_admin))
       end.

Definition cancel_body (actor : User.t) (id : ObjectId)
    (reason : option string) : Handler :=
  let_await found := Registration_findById_populate id ;;
  match found with
  | None => Ret (RegistrationNotFound, [])
  | Some (registration, event) =>
    match canCancel registration event actor with
    | None => Throw (null_event_error "organizer")
    | Some false =>
        Ret (failure 403 "Not authorized to cancel this registration", [])
    | Some true =>
      do_await Registration_save id (Registration.cancel reason) ;;
      match event with
      | None => Throw (null_event_error "_id")
      | Some _ =>
        do_await Event_findByIdAndUpdate_inc (Registration.event registration) (-1) id ;;
        Ret (success 200 "Registration cancelled successfully" no_data,
             [emit_registration_cancelled
                (room_of (Registration.event registration))
                (Registration.cancel reason registration)])
      end
    end
  end.

Definition cancel (actor : User.t) (id : ObjectId) (reason : option string)
  : Handler :=
  try_catch (cancel_body actor id reason)
    (fun error => Ret (server_error "Failed to cancel registration" error, [])).

(** ** [router.post('/bulk-approve')]: bulk decide

    The route is mounted behind [checkPermission('approve_events')]; the
    program below is the handler that runs once that middleware has let the
    request through.  [registrationIds] is [None] when the body field is
    missing or not an array. *)

Definition bulk_query (registrationIds : list ObjectId) : Query :=
  mkQuery (Some registrationIds) None None (Some Registration.pending) None.

(** One turn of the [for ... of] loop, with its own [try]/[catch]. *)
Definition bulk_iteration (actor : User.t) (approved : bool)
    (reason : option string) (now : Z)
    (item : Registration.t * option Event.t) (results : list BulkResult)
  : Prog (list BulkResult) :=
  let '(registration, event) := item in
  let id := Registration._id registration in
  try_catch
    (if approved then
       do_await Registration_save id (Registration.approve actor now) ;;
       Ret (results ++ [mkBulkResult id true None])
     else
       do_await Registration_save id (Registration.reject reason actor now) ;;
       match event with
       | None => Throw (null_event_error "_id")
       | Some _ =>
         do_await Event_findByIdAndUpdate_inc
                    (Registration.event registration) (-1) id ;;
         Ret (results ++ [mkBulkResult id true None])
       end)
    (fun error => Ret (results ++ [mkBulkResult id false (Some error)])).

Fixpoint bulk_loop (actor : User.t) (approved : bool) (reason : option string)
    (now : Z) (items : list (Registration.t * option Event.t))
    (results : list BulkResult) : Prog (list BulkResult) :=
  match items with
  | [] => Ret results
  | item :: rest =>
      bind (bulk_iteration actor approved reason now item results)
           (bulk_loop actor approved reason now rest)
  end.

Definition bulk_approve_body (actor : User.t)
    (registrationIds : option (list ObjectId)) (approved : bool)
    (reason : option string) (now : Z) : Handler :=
  match registrationIds with
  | None => Ret (failure 400 "Registration IDs array is required", [])
  | Some ids =>
    let_await found := Registration_find_populate (bulk_query ids) ;;
    bind (bulk_loop actor approved reason now found [])
         (fun results =>
            Ret (success 200 (if approved then "Bulk approval completed"
                              else "Bulk rejection completed")
                         (data_results results), []))
  end.

Definition bulk_approve (actor : User.t)
    (registrationIds : option (list ObjectId)) (approved : bool)
    (reason : option string) (now : Z) : Handler :=
  try_catch (bulk_approve_body actor registrationIds approved reason now)
    (fun error => Ret (server_error "Bulk operation failed" error, [])).

(** ** Requests and their serial execution *)

Inductive Request :=
| Register (user : User.t) (eventId : ObjectId) (now : Z) (newId : ObjectId)
| Decide (actor : User.t) (id : ObjectId) (approved : bool)
    (reason : option string) (now : Z)
| MarkAttendance (actor : User.t) (id : ObjectId) (present : option bool)
    (location : option Registration.Location) (now : Z)
| Cancel (actor : User.t) (id : ObjectId) (reason : option string)
| BulkDecide (actor : User.t) (registrationIds : option (list ObjectId))
    (approved : bool) (reason : option string) (now : Z).

Definition handler (req : Request) : Handler :=
  match req with
  | Register user eventId now newId => register user eventId now newId
  | Decide actor id approved reason now => approval actor id approved reason now
  | MarkAttendance actor id present location now =>
      attendance actor id present location now
  | Cancel actor id reason => cancel actor id reason
  | BulkDecide actor ids approved reason now =>
      bulk_approve actor ids approved reason now
  end.

Definition serve (req : Request) (db : DB) : Outcome (Response * list Emission) :=
  run (handler req) db.

(** The store after a list of requests served one after the other. *)
Definition serve_all (reqs : list Request) (db : DB) : DB :=
  foldl (fun db req => out_db (serve req db)) db reqs.

(** The response of a finished handler. *)
Definition response {E : Type} (o : Outcome (Response * E)) : option Response :=
  match out_result o with
  | Done (res, _) => Some res
  | Uncaught _ => None
  end.

Definition emissions (o : Outcome (Response * list Emission)) : list Emission :=
  match out_result o with
  | Done (_, es) => es
  | Uncaught _ => []
  end.

(** ** Concurrent requests

    A pool of handlers in flight; the scheduler names the handler whose
    pending [await] completes next.  That handler then runs to its next
    [await] (or to its end) before any other handler is resumed. *)

Definition step {R} (p : Prog R) (db : DB) : Prog R * DB * list LedgerCall :=
  match p with
  | Await op k => let '(db', calls, a) := exec op db in (k a, db', calls)
  | _ => (p, db, [])
  end.

Fixpoint interleave {R} (schedule : list nat) (pool : list (Prog R)) (db : DB)
  : list (Prog R) * DB :=
  match schedule with
  | [] => (pool, db)
  | i :: schedule' =>
      match pool !! i with
      | None => interleave schedule' pool db
      | Some p =>
          let '(p', db', _) := step p db in
          interleave schedule' (<[i:=p']> pool) db'
      end
  end.

(** Looking up the current count of an event. *)
Definition currentCount_of (eventId : ObjectId) (db : DB) : option Z :=
  Event.currentCount ∘ Event.registration <$> events db !! eventId.

(** ** The browser-side socket service ([WebSocketService])

    The client keeps one socket and a table of listeners.  [send] writes a
    frame [{ type, data }] when the socket is open and does nothing
    otherwise; [joinEvent] and [leaveEvent] are [send]s.  Listeners run only
    when a frame arrives ([onmessage]). *)

Module WebSocketService.
Inductive ReadyState := CONNECTING | OPEN | CLOSING | CLOSED.

#[global] Instance ReadyState_eq_dec : EqDecision ReadyState.
Proof. solve_decision. Defined.

(** [JSON.stringify({ type: event, data })], with [data = { eventId }]. *)
Record Frame := mkFrame { type : string; eventId : ObjectId }.

(** Listeners are named by numbers; a set of functions keeps insertion order. *)
Record t := mk {
  socket : option ReadyState;
  listeners : gmap string (list nat)
}.

Definition on (event : string) (callback : nat) (this : t) : t :=
  let current := default [] (listeners this !! event) in
  mk (socket this)
     (<[event := if bool_decide (callback ∈ current) then current
                 else current ++ [callback]]> (listeners this)).

Definition off (event : string) (callback : nat) (this : t) : t :=
  match listeners this !! event with
  | Some eventListeners =>
      mk (socket this)
         (<[event := List.filter (λ c, negb (bool_decide (c = callback)))
                                 eventListeners]> (listeners this))
  | None => this
  end.

(** The callbacks [emit] invokes, in order. *)
Definition emit (event : string) (this : t) : list nat :=
  default [] (listeners this !! event).

(** The frames [send] puts on the wire. *)
Definition send (event : string) (eventId : ObjectId) (this : t) : list Frame :=
  if bool_decide (socket this = Some OPEN) then [mkFrame event eventId] else [].

Definition joinEvent (eventId : ObjectId) (this : t) : list Frame :=
  send "join-event" eventId this.

Definition leaveEvent (eventId : ObjectId) (this : t) : list Frame :=
  send "leave-event" eventId this.
End WebSocketService.

(** ** The broadcast router *)

Module Router.
(** Modelled from the spec: the kinds of domain event, with the [Snapshot]
    kind of the wire format. *)
Inductive Kind :=
| RegistrationCreated | RegistrationApproved | RegistrationRejected
| RegistrationCancelled | AttendanceMarked | Snapshot.

(** Modelled from the spec: what the router transports. *)
Record DomainEvent := mkDomainEvent {
  eventId : ObjectId;
  kind : Kind;
  occupiedCountAfter : Z;
  sequenceNumber : Z;
  timestamp : Z
}.

(** Modelled from the spec: the server-side handler of the [join-event] and
    [leave-event] frames is missing from the sources, so the router is the
    one of the design: a table from event to its current subscribers, one
    bounded delivery queue per subscriber, and a per-event sequence number.
    An observer is named by a number. *)
Record t := mk {
  queue_limit : nat;
  subscribers : gmap string (list nat);
  queues : gmap nat (list DomainEvent);
  sequence : gmap string Z
}.

(** Modelled from the spec: [Subscribe(eventId, observer)] registers the
    observer and at once sends it a synthetic snapshot carrying the current
    occupied count of the event; a (re)subscribing observer starts from a
    fresh queue.  The occupied count is the [registration.currentCount] of
    the event in the store; an unknown event has no subscribers. *)
Definition Subscribe (eventId : ObjectId) (observer : nat) (now : Z)
    (db : DB) (this : t) : t :=
  match currentCount_of eventId db with
  | None => this
  | Some occupiedCount =>
      let current := default [] (subscribers this !! eventId) in
      mk (queue_limit this)
         (<[eventId := if bool_decide (observer ∈ current) then current
                       else current ++ [observer]]> (subscribers this))
         (<[observer := [mkDomainEvent eventId Snapshot occupiedCount
                           (default 0 (sequence this !! eventId)) now]]>
            (queues this))
         (sequence this)
  end.

(** Modelled from the spec: [Unsubscribe(handle)] stops tracking the
    observer. *)
Definition Unsubscribe (eventId : ObjectId) (observer : nat) (this : t) : t :=
  mk (queue_limit this)
     (alter (List.filter (λ o, negb (bool_decide (o = observer)))) eventId
            (subscribers this))
     (delete observer (queues this))
     (sequence this).

(** Modelled from the spec: delivery of one event to one subscriber; a
    subscriber whose queue is full is dropped. *)
Definition deliver (e : DomainEvent) (this : t) (observer : nat) : t :=
  let queue := default [] (queues this !! observer) in
  if bool_decide (length queue < queue_limit this)%nat
  then mk (queue_limit this) (subscribers this)
          (<[observer := queue ++ [e]]> (queues this)) (sequence this)
  else Unsubscribe (eventId e) observer this.

(** Modelled from the spec: [Publish(domainEvent)] stamps the event with the
    next sequence number of its [eventId] and delivers it to every current
    subscriber of that event, in subscription order. *)
Definition Publish (eventId : ObjectId) (kind : Kind) (occupiedCountAfter : Z)
    (now : Z) (this : t) : t :=
  let seq := default 0 (sequence this !! eventId) + 1 in
  let e := mkDomainEvent eventId kind occupiedCountAfter seq now in
  foldl (deliver e)
        (mk (queue_limit this) (subscribers this) (queues this)
            (<[eventId := seq]> (sequence this)))
        (default [] (subscribers this !! eventId)).
End Router.

(** ** Further code of the models and routes *)

(** *** [models/User.js]: the role hierarchy *)

Module UserRoles.
(** [userSchema.statics.getRoleHierarchy] *)
Definition getRoleHierarchy (role : Role) : Z :=
  match role with
  | role_student => 1
  | role_faculty => 2
  | role_hod => 3
  | role_organizer => 4
  | role_authority => 5
  | role_registrar => 6
  | role_principal => 7
  | role_admin => 8
  end.

(** [userSchema.methods.canManage] *)
Definition canManage (this targetUser : User.t) : bool :=
  getRoleHierarchy (User.role this) >=? getRoleHierarchy (User.role targetUser).
End UserRoles.

(** *** [models/Event.js]: the schedule virtuals *)

Module EventSchedule.
(** The [schedule] sub-document, as far as the virtuals read it. *)
Record t := mk { startDate : Z; endDate : Z }.

(** [eventSchema.virtual('isUpcoming')], at the instant [now]. *)
Definition isUpcoming (now : Z) (schedule : t) : bool := now <? startDate schedule.

(** [eventSchema.virtual('isOngoing')] *)
Definition isOngoing (now : Z) (schedule : t) : bool :=
  (now >=? startDate schedule) && (now <=? endDate schedule).

(** [eventSchema.virtual('isPast')] *)
Definition isPast (now : Z) (schedule : t) : bool := endDate schedule <? now.
End EventSchedule.

(** *** [models/Registration.js]: registration statistics *)

Module Stats.
(** The [result] object of [getRegistrationStats]. *)
Record t := mk {
  pending : Z; approved : Z; rejected : Z; cancelled : Z;
  attended : Z; absent : Z; total : Z
}.

Definition zero : t := mk 0 0 0 0 0 0 0.

(** [result[status]] *)
Definition get (s : Registration.Status) (result : t) : Z :=
  match s with
  | Registration.pending => pending result
  | Registration.approved => approved result
  | Registration.rejected => rejected result
  | Registration.cancelled => cancelled result
  | Registration.attended => attended result
  | Registration.absent => absent result
  end.

(** One turn of [stats.forEach]:
    [result[stat._id] = stat.count; result.total += stat.count]. *)
Definition add (result : t) (stat : Registration.Status * Z) : t :=
  let '(s, count) := stat in
  let total' := total result + count in
  match s with
  | Registration.pending =>
      mk count (approved result) (rejected result) (cancelled result)
         (attended result) (absent result) total'
  | Registration.approved =>
      mk (pending result) count (rejected result) (cancelled result)
         (attended result) (absent result) total'
  | Registration.rejected =>
      mk (pending result) (approved result) count (cancelled result)
         (attended result) (absent result) total'
  | Registration.cancelled =>
      mk (pending result) (approved result) (rejected result) count
         (attended result) (absent result) total'
  | Registration.attended =>
      mk (pending result) (approved result) (rejected result)
         (cancelled result) count (absent result) total'
  | Registration.absent =>
      mk (pending result) (approved result) (rejected result)
         (cancelled result) (attended result) count total'
  end.

(** The whole [forEach] over the groups the aggregation returned. *)
Definition collect (stats : list (Registration.Status * Z)) : t :=
  foldl add zero stats.
End Stats.

Definition all_statuses : list Registration.Status :=
  [Registration.pending; Registration.approved; Registration.rejected;
   Registration.cancelled; Registration.attended; Registration.absent].

(** The number of registrations of an event in a given status. *)
Definition count_status (eventId : ObjectId) (s : Registration.Status)
    (db : DB) : Z :=
  Z.of_nat (length (List.filter
    (λ r, bool_decide (Registration.event r = eventId)
          && bool_decide (Registration.status r = s))
    (registrations db))).

(** The aggregation [$match: { event }] then [$group: { _id: '$status',
    count: { $sum: 1 } }]: one group per status that occurs among the
    registrations of the event.  The database promises no order of the
    groups; this is one of them. *)
Definition aggregate_by_status (eventId : ObjectId) (db : DB)
  : list (Registration.Status * Z) :=
  List.filter (λ stat, 0 <? stat.2)
    ((λ s, (s, count_status eventId s db)) <$> all_statuses).

(** [registrationSchema.statics.getRegistrationStats] *)
Definition getRegistrationStats (eventId : ObjectId) (db : DB) : Stats.t :=
  Stats.collect (aggregate_by_status eventId db).

(** *** [router.get('/')]: listing registrations *)

(** The query string, after [validatePagination]: [page] is an integer from
    1 and [limit] an integer from 1 to 100 when present; [eventId] and
    [userId] are object ids; a field that is missing or empty is [None]. *)
Record ListQuery := mkListQuery {
  lq_page : option Z;
  lq_limit : option Z;
  lq_status : option string;
  lq_eventId : option ObjectId;
  lq_userId : option ObjectId
}.

(** The string a status is stored as. *)
Definition status_name (s : Registration.Status) : string :=
  match s with
  | Registration.pending => "pending"
  | Registration.approved => "approved"
  | Registration.rejected => "rejected"
  | Registration.cancelled => "cancelled"
  | Registration.attended => "attended"
  | Registration.absent => "absent"
  end.

(** The [user] entry of the filter the route builds: students are pinned to
    their own registrations; [userId] counts only for admins and holders of
    [manage_users]; otherwise there is no such entry. *)
Definition list_filter_user (user : User.t) (q : ListQuery) : option ObjectId :=
  if bool_decide (User.role user = role_student) then Some (User._id user)
  else match lq_userId q with
       | Some userId =>
           if bool_decide (User.role user = role_admin)
              || User.hasPermission user "manage_users"
           then Some userId else None
       | None => None
       end.

(** Whether a registration passes the filter of the route. *)
Definition list_filter (user : User.t) (q : ListQuery) (r : Registration.t)
  : bool :=
  match lq_status q with
  | Some status => bool_decide (status_name (Registration.status r) = status)
  | None => true
  end
  && match lq_eventId q with
     | Some eventId => bool_decide (Registration.event r = eventId)
     | None => true
     end
  && match list_filter_user user q with
     | Some userId => bool_decide (Registration.user r = userId)
     | None => true
     end.

(** [pagination] in the reply. *)
Record Pagination := mkPagination {
  pg_current : Z;
  pg_pages : Z;       (* [Math.ceil(total / limit)] *)
  pg_total : Z;
  pg_limit : Z
}.

Record ListReply := mkListReply {
  lr_registrations : list Registration.t;
  lr_pagination : Pagination
}.

Section ListRegistrations.
(** [.sort({ registrationDate: -1 })] is the database's; ties are in no
    promised order. *)
Variable sort_by_date_desc : list Registration.t → list Registration.t.

(** The route, served with no other request in flight: [find] with [skip]
    and [limit], then [countDocuments] on the same filter. *)
Definition list_registrations (user : User.t) (q : ListQuery) (db : DB)
  : ListReply :=
  let page := default 1 (lq_page q) in
  let limit := default 20 (lq_limit q) in
  let skip := (page - 1) * limit in
  let found := List.filter (list_filter user q) (registrations db) in
  let total := Z.of_nat (length found) in
  mkListReply
    (take (Z.to_nat limit) (drop (Z.to_nat skip) (sort_by_date_desc found)))
    (mkPagination page ((total + limit - 1) / limit) total limit).
End ListRegistrations.

(** *** The reconnection counters of [WebSocketService] *)

Module Reconnect.
(** [reconnectAttempts] and the delay of the timer held in
    [reconnectTimeout], if any. *)
Record t := mk {
  reconnectAttempts : Z;
  reconnectTimeout : option Z
}.

Definition maxReconnectAttempts : Z := 5.

(** [attemptReconnect] *)
Definition attemptReconnect (this : t) : t :=
  if reconnectAttempts this <? maxReconnectAttempts
  then mk (reconnectAttempts this + 1)
          (Some (3000 * (reconnectAttempts this + 1)))
  else this.

(** [socket.onopen] *)
Definition onopen (this : t) : t := mk 0 (reconnectTimeout this).

(** [socket.onclose] *)
Definition onclose (this : t) : t := attemptReconnect this.

(** [disconnect] *)
Definition disconnect (this : t) : t := mk (reconnectAttempts this) None.

(** A run of [n] close events with no successful opening in between. *)
Definition closes (n : nat) (this : t) : t := Nat.iter n onclose this.
End Reconnect.

(** * Vocabulary of the properties *)

(** A registration of [userId] for [eventId], whatever its status. *)
Definition registered (userId eventId : ObjectId) (r : Registration.t) : Prop :=
  Registration.user r = userId ∧ Registration.event r = eventId.

(** The statuses the admission count of the register route ranges over. *)
Definition counted (s : Registration.Status) : Prop :=
  s = Registration.pending ∨ s = Registration.approved.

(** The number of registrations of [eventId] whose status is [counted]. *)
Definition occupancy (eventId : ObjectId) (db : DB) : Z :=
  Z.of_nat (length (filter
    (λ r, Registration.event r = eventId ∧ counted (Registration.status r))
    (registrations db))).

(** The register request gets past the event look-up, the status test and
    the eligibility test. *)
Definition admissible (user : User.t) (eventId : ObjectId) (db : DB)
    (event : Event.t) : Prop :=
  events db !! eventId = Some event
  ∧ Event.status event = Event.published
  ∧ Event.canUserRegister event user = true.

(** The user has no registration for the event, in any status. *)
Definition unregistered (user : User.t) (eventId : ObjectId) (db : DB) : Prop :=
  ∀ r, r ∈ registrations db → ¬ registered (User._id user) eventId r.

(** The deadline test of the register route. *)
Definition deadline_passed (now : Z) (event : Event.t) : bool :=
  match Event.deadline (Event.registration event) with
  | Some deadline => deadline <? now
  | None => false
  end.

(** The store after a successful registration. *)
Definition admitted_db (user : User.t) (eventId : ObjectId) (now : Z)
    (newId : ObjectId) (db : DB) (event : Event.t) : DB :=
  mkDB (alter (Event.inc_currentCount 1) eventId (events db))
       (registrations db ++ [registrationData user eventId event now newId]).

(** The reply and the emissions of a successful registration. *)
Definition admitted_reply (user : User.t) (eventId : ObjectId) (now : Z)
    (newId : ObjectId) (db : DB) (event : Event.t) : Response * list Emission :=
  let registration := registrationData user eventId event now newId in
  (success 201 "Registration successful" (data_registration registration),
   emit_new_registration (room_of eventId) registration eventId
                         (occupancy eventId db + 1)
   :: (if Event.approvalRequired (Event.registration event)
       then [emit_registration_approval_needed registration] else [])).

(** The capacity-holding statuses as the data model words them: [pending],
    [approved] and [attended]. *)
Definition spec_capacityHeld (s : Registration.Status) : Prop :=
  s = Registration.pending ∨ s = Registration.approved ∨ s = Registration.attended.

(** The occupancy of an event under that wording. *)
Definition spec_occupancy (eventId : ObjectId) (db : DB) : Z :=
  Z.of_nat (length (filter
    (λ r, Registration.event r = eventId ∧ spec_capacityHeld (Registration.status r))
    (registrations db))).

(** The program a handler has become once it has run to its end. *)
Definition finished {R} (o : Outcome R) : Prog R :=
  match out_result o with
  | Done r => Ret r
  | Uncaught e => Throw e
  end.

(** The registration identifiers in use. *)
Definition ids (db : DB) : list ObjectId := Registration._id <$> registrations db.

(** [_id] is unique, and every registration refers to an event document
    that exists. *)
Definition well_formed (db : DB) : Prop :=
  NoDup (ids db)
  ∧ ∀ r, r ∈ registrations db → is_Some (events db !! Registration.event r).

(** The status stored under a registration id. *)
Definition status_of (id : ObjectId) (db : DB) : option Registration.Status :=
  Registration.status <$>
    List.find (λ r, bool_decide (Registration._id r = id)) (registrations db).

(** An assignment to a loaded registration that leaves [_id] and [event]
    alone, as all the assignments of the routes do. *)
Definition keeps_keys (f : Registration.t → Registration.t) : Prop :=
  ∀ r, Registration._id (f r) = Registration._id r
       ∧ Registration.event (f r) = Registration.event r.

(** One change of the store, as it bears on one registration. *)
Record Step := mkStep {
  st_id : ObjectId;                           (* the registration moved *)
  st_from : option Registration.Status;       (* [None]: it did not exist *)
  st_to : Registration.Status;
  st_release : bool                           (* the count is decremented *)
}.

(** Rewriting the registration [r] in place by [f], decrementing the count
    of its event when [release] is set. *)
Definition write (r : Registration.t) (f : Registration.t → Registration.t)
    (release : bool) (db : DB) : DB :=
  mkDB (if release
        then alter (Event.inc_currentCount (-1)) (Registration.event r) (events db)
        else events db)
       (update_by_id (Registration._id r) f (registrations db)).

(** The counter calls of such a rewrite. *)
Definition write_calls (r : Registration.t) (release : bool) : list LedgerCall :=
  if release
  then [mkLedgerCall (Registration.event r) (-1) (Registration._id r)]
  else [].

(** A move either appends an admitted registration and increments the
    count of its event, or rewrites one registration in place and possibly
    decrements the count of its event. *)
Inductive Move (db : DB) : Step → list LedgerCall → DB → Prop :=
| Move_admit r e :
    events db !! Registration.event r = Some e →
    occupancy (Registration.event r) db < Event.maxCapacity (Event.registration e) →
    counted (Registration.status r) →
    Registration._id r ∉ ids db →
    Move db (mkStep (Registration._id r) None (Registration.status r) false)
      [mkLedgerCall (Registration.event r) 1 (Registration._id r)]
      (mkDB (alter (Event.inc_currentCount 1) (Registration.event r) (events db))
            (registrations db ++ [r]))
| Move_write r f release :
    r ∈ registrations db →
    keeps_keys f →
    Move db (mkStep (Registration._id r) (Some (Registration.status r))
                    (Registration.status (f r)) release)
      (write_calls r release) (write r f release db).

(** Moves in sequence, with their steps and counter calls. *)
Inductive Moves : DB → list Step → list LedgerCall → DB → Prop :=
| Moves_nil db : Moves db [] [] db
| Moves_cons db s calls db' ss calls' db'' :
    Move db s calls db' → Moves db' ss calls' db'' →
    Moves db (s :: ss) (calls ++ calls') db''.

(** A step of the bulk loop: a pending registration is approved, or
    rejected and released. *)
Definition bulk_step (approved : bool) (s : Step) : Prop :=
  st_from s = Some Registration.pending
  ∧ st_to s = (if approved then Registration.approved else Registration.rejected)
  ∧ st_release s = negb approved.

(** The steps a request may take. *)
Definition legal (req : Request) (steps : list Step) : Prop :=
  steps = []
  ∨ match req with
    | Register _ _ _ newId =>
        ∃ s, counted s ∧ steps = [mkStep newId None s false]
    | Decide _ id approved _ _ =>
        steps = [mkStep id (Some Registration.pending)
                   (if approved then Registration.approved
                    else Registration.rejected) (negb approved)]
    | MarkAttendance _ id present _ _ =>
        let s := if default true present
                 then Registration.attended else Registration.absent in
        steps = [mkStep id (Some Registration.approved) s false]
        ∨ steps = [mkStep id (Some Registration.approved) s false;
                   mkStep id (Some s) s false]
    | Cancel _ id _ =>
        ∃ s, steps = [mkStep id (Some s) Registration.cancelled true]
    | BulkDecide _ registrationIds approved _ _ =>
        Forall (λ s, (∃ l, registrationIds = Some l ∧ st_id s ∈ l)
                     ∧ bulk_step approved s) steps
    end.

(** The documents still to be processed are in the store, pending, carry
    distinct identifiers, and were populated with an existing event. *)
Definition ready (db : DB) (items : list (Registration.t * option Event.t)) : Prop :=
  NoDup (Registration._id ∘ fst <$> items)
  ∧ ∀ item, item ∈ items →
      item.1 ∈ registrations db
      ∧ Registration.status item.1 = Registration.pending
      ∧ is_Some item.2.

(** The number of decrements of the count made on behalf of a registration. *)
Definition releases (id : ObjectId) (calls : list LedgerCall) : nat :=
  length (filter (λ c, lc_registration c = id ∧ lc_delta c = -1) calls).

(** What one served request may do to the registration [id]: its status
    before, its status after, and the number of decrements made on its
    behalf. *)
Definition transition (id : ObjectId) (req : Request)
    (before after : option Registration.Status) (released : nat) : Prop :=
  (after = before ∧ released = 0%nat)
  ∨ (before = None
     ∧ (after = Some Registration.pending ∨ after = Some Registration.approved)
     ∧ released = 0%nat)
  ∨ (before = Some Registration.pending ∧ after = Some Registration.approved
     ∧ released = 0%nat)
  ∨ (before = Some Registration.pending ∧ after = Some Registration.rejected
     ∧ released = 1%nat)
  ∨ (before = Some Registration.approved ∧ after = Some Registration.attended
     ∧ released = 0%nat)
  ∨ (before = Some Registration.approved ∧ after = Some Registration.absent
     ∧ released = 0%nat)
  ∨ ((∃ actor reason, req = Cancel actor id reason)
     ∧ is_Some before ∧ after = Some Registration.cancelled
     ∧ (∀ s, before = Some s → counted s → released = 1%nat)).

(** The counter calls of a list of requests served one after the other. *)
Fixpoint ledger_of (reqs : list Request) (db : DB) : list LedgerCall :=
  match reqs with
  | [] => []
  | req :: rest =>
      out_ledger (serve req db) ++ ledger_of rest (out_db (serve req db))
  end.

(** Every cancel request aimed at [id] finds it [pending] or [approved]. *)
Fixpoint cancel_guarded (id : ObjectId) (reqs : list Request) (db : DB) : Prop :=
  match reqs with
  | [] => True
  | req :: rest =>
      match req with
      | Cancel _ id' _ =>
          id' = id → ∃ s, status_of id db = Some s ∧ counted s
      | _ => True
      end
      ∧ cancel_guarded id rest (out_db (serve req db))
  end.

(** For every event, the stored count is at most the number of counted
    registrations, which is at most the capacity. *)
Definition bounded (db : DB) : Prop :=
  ∀ eventId e, events db !! eventId = Some e →
    Event.currentCount (Event.registration e) ≤ occupancy eventId db
    ∧ occupancy eventId db ≤ Event.maxCapacity (Event.registration e).

(** A step that cannot break [bounded]: it does not bring a registration
    back among the counted ones, and it decrements the count whenever it
    takes one out of them. *)
Definition keeps_bound (s : Step) : Prop :=
  match st_from s with
  | None => True
  | Some from =>
      (counted (st_to s) → counted from)
      ∧ (counted from → ¬ counted (st_to s) → st_release s = true)
  end.

#[local] Instance counted_dec s : Decision (counted s).
Proof. unfold counted. apply _. Defined.

(** Any request but a mark-attendance one. *)
Definition leaves_attendance_alone (req : Request) : Prop :=
  match req with
  | MarkAttendance _ _ _ _ _ => False
  | _ => True
  end.

(** A reply that reports a failure, sent before anything was written. *)
Definition refused {E} (db : DB) (o : Outcome (Response * list E)) : Prop :=
  ∃ res, o = mkOutcome db [] (Done (res, [])) ∧ res_success res = false.

(** An assignment to a loaded registration that leaves [_id], [user] and
    [event] alone. *)
Definition keeps_identity (f : Registration.t → Registration.t) : Prop :=
  ∀ r, Registration._id (f r) = Registration._id r
       ∧ Registration.user (f r) = Registration.user r
       ∧ Registration.event (f r) = Registration.event r.

(** The saves of a program only make such assignments. *)
Definition op_ok {A} (op : DbOp A) : Prop :=
  match op with
  | Registration_save _ f => keeps_identity f
  | _ => True
  end.

Inductive safe {R} : Prog R → Prop :=
| safe_Ret r : safe (Ret r)
| safe_Throw e : safe (Throw e)
| safe_Await {A} (op : DbOp A) k :
    op_ok op → (∀ a, safe (k a)) → safe (Await op k).

(** Who a registration is: its id, its user and its event. *)
Definition identity (r : Registration.t) : ObjectId * ObjectId * ObjectId :=
  (Registration._id r, Registration.user r, Registration.event r).

(** What the two unique indexes of the collection demand. *)
Definition unique_index (db : DB) : Prop :=
  NoDup (Registration._id <$> registrations db)
  ∧ NoDup ((λ r, (Registration.user r, Registration.event r))
             <$> registrations db).

(** [db'] holds the registrations of [db], in the same order and with the
    same id, user and event, possibly followed by new ones; and it holds the
    same events, each as it was up to its count. *)
Definition grows (db db' : DB) : Prop :=
  (∃ added,
     identity <$> registrations db' = (identity <$> registrations db) ++ added)
  ∧ ∀ eventId,
      match events db !! eventId, events db' !! eventId with
      | Some e, Some e' => ∃ delta, e' = Event.inc_currentCount delta e
      | None, None => True
      | _, _ => False
      end.

(** The same query string, asking for another page. *)
Definition with_page (page : Z) (q : ListQuery) : ListQuery :=
  mkListQuery (Some page) (lq_limit q) (lq_status q) (lq_eventId q) (lq_userId q).

(** The same query string without its [userId]. *)
Definition without_userId (q : ListQuery) : ListQuery :=
  mkListQuery (lq_page q) (lq_limit q) (lq_status q) (lq_eventId q) None.

(** The statuses a registration in status [s] may be found in after further
    requests served one after the other. *)
Definition reaches (s s' : Registration.Status) : bool :=
  match s with
  | Registration.pending => true
  | Registration.approved =>
      bool_decide (s' ∈ [Registration.approved; Registration.attended;
                         Registration.absent; Registration.cancelled])
  | Registration.cancelled => bool_decide (s' = Registration.cancelled)
  | _ => bool_decide (s' = s ∨ s' = Registration.cancelled)
  end.

(** ** Sample data *)

Module Sample.
Definition alice : User.t := User.mk "a11ce" role_student None (Some 2) [].
Definition bob : User.t := User.mk "b0b" role_student None (Some 3) [].
Definition olga : User.t := User.mk "016a" role_organizer None None ["approve_events"].

(** A published event run by [olga], open to everybody, with no fee and no
    approval step. *)
Definition event (maxCapacity currentCount : Z) (deadline : option Z) : Event.t :=
  Event.mk "016a" []
    (Event.mkReg maxCapacity currentCount false deadline 0 [] [] [])
    Event.published.

Definition registration (id userId : ObjectId) (s : Registration.Status)
  : Registration.t :=
  Registration.mk id userId "e1" s 0 None None None None false None
    (Registration.mkPayment false None Registration.pay_pending)
    (Registration.mkCheckIn None None).

Definition store (e : Event.t) (rs : list Registration.t) : DB :=
  mkDB {[ "e1" := e ]} rs.
End Sample.

(** * Properties *)

(** ** Reading the registration collection *)

Lemma find_none_iff {A} (f : A → bool) (l : list A) :
  List.find f l = None ↔ ∀ x, x ∈ l → f x = false.
Proof.
  induction l as [|a l IH]; simpl.
  - split; [intros _ x Hx; inversion Hx | done].
  - destruct (f a) eqn:Hfa.
    + split; [done | intros H; specialize (H a (list_elem_of_here _ _)); congruence].
    + rewrite IH. split.
      * intros H x Hx. apply elem_of_cons in Hx as [-> | Hx]; auto.
      * intros H x Hx. apply H. by apply list_elem_of_further.
Qed.

Lemma find_some_elem {A} (f : A → bool) (l : list A) (x : A) :
  List.find f l = Some x → x ∈ l ∧ f x = true.
Proof.
  induction l as [|a l IH]; simpl; [done |].
  destruct (f a) eqn:Hfa.
  - intros [= <-]. split; [apply list_elem_of_here | done].
  - intros H. destruct (IH H) as [? ?]. split; [by apply list_elem_of_further | done].
Qed.

Lemma matches_user_event userId eventId r :
  matches (user_event_query userId eventId) r = true ↔ registered userId eventId r.
Proof.
  unfold matches, user_event_query, registered; simpl.
  rewrite !andb_true_r, andb_true_iff, !bool_decide_eq_true. done.
Qed.

Lemma matches_admission eventId r :
  matches (admission_query eventId) r = true
  ↔ Registration.event r = eventId ∧ counted (Registration.status r).
Proof.
  unfold matches, admission_query, counted; simpl.
  rewrite andb_true_r, andb_true_iff, !bool_decide_eq_true.
  rewrite !elem_of_cons, elem_of_nil. tauto.
Qed.

Lemma findOne_none_iff userId eventId db :
  List.find (matches (user_event_query userId eventId)) (registrations db) = None
  ↔ ∀ r, r ∈ registrations db → ¬ registered userId eventId r.
Proof.
  rewrite find_none_iff. split; intros H r Hr.
  - rewrite <- matches_user_event. rewrite (H r Hr). done.
  - specialize (H r Hr). rewrite <- matches_user_event in H.
    by destruct (matches _ r).
Qed.

Lemma length_filter_bool_prop {A} (f : A → bool) (P : A → Prop)
    `{∀ x, Decision (P x)} (l : list A) :
  (∀ x, f x = true ↔ P x) →
  length (List.filter f l) = length (filter P l).
Proof.
  intros Hf. induction l as [|a l IH]; [done |].
  simpl. rewrite filter_cons.
  destruct (f a) eqn:Hfa; destruct (decide (P a)) as [Hp | Hp]; simpl.
  - by rewrite IH.
  - apply Hf in Hfa. done.
  - apply Hf in Hp. congruence.
  - done.
Qed.

Lemma countDocuments_occupancy eventId db :
  Z.of_nat (length (List.filter (matches (admission_query eventId))
                                (registrations db)))
  = occupancy eventId db.
Proof.
  unfold occupancy. f_equal.
  apply length_filter_bool_prop. intros r. apply matches_admission.
Qed.

(** ** What the register route does, case by case *)

Section Register.
Variables (user : User.t) (eventId : ObjectId) (now : Z) (newId : ObjectId).
Variables (db : DB) (event : Event.t).

Lemma register_existing r :
  admissible user eventId db event →
  r ∈ registrations db → registered (User._id user) eventId r →
  serve (Register user eventId now newId) db
  = mkOutcome db [] (Done (AlreadyRegistered, [])).
Proof.
  intros (Hev & Hst & Hel) Hr Hreg.
  unfold serve, run; simpl. rewrite Hev; simpl.
  rewrite bool_decide_eq_true_2 by done. rewrite Hel; simpl.
  destruct (List.find _ _) eqn:Hfind; [done |].
  pose proof (proj1 (findOne_none_iff _ _ _) Hfind) as Hnone.
  by destruct (Hnone r Hr).
Qed.

Lemma register_late :
  admissible user eventId db event →
  unregistered user eventId db →
  deadline_passed now event = true →
  serve (Register user eventId now newId) db
  = mkOutcome db [] (Done (DeadlinePassed, [])).
Proof.
  intros (Hev & Hst & Hel) Hun Hdl.
  unfold serve, run; simpl. rewrite Hev; simpl.
  rewrite bool_decide_eq_true_2 by done. rewrite Hel; simpl.
  apply findOne_none_iff in Hun. rewrite Hun; simpl.
  unfold deadline_passed in Hdl. rewrite Hdl. done.
Qed.

Lemma register_full :
  admissible user eventId db event →
  unregistered user eventId db →
  deadline_passed now event = false →
  Event.maxCapacity (Event.registration event) ≤ occupancy eventId db →
  serve (Register user eventId now newId) db
  = mkOutcome db [] (Done (EventFull, [])).
Proof.
  intros (Hev & Hst & Hel) Hun Hdl Hfull.
  unfold serve, run; simpl. rewrite Hev; simpl.
  rewrite bool_decide_eq_true_2 by done. rewrite Hel; simpl.
  apply findOne_none_iff in Hun. rewrite Hun; simpl.
  unfold deadline_passed in Hdl. rewrite Hdl; simpl.
  rewrite countDocuments_occupancy.
  destruct (Z.geb_spec (occupancy eventId db)
                       (Event.maxCapacity (Event.registration event))); [done | lia].
Qed.

Lemma duplicate_key_false doc :
  Registration.user doc = User._id user → Registration.event doc = eventId →
  unregistered user eventId db →
  Registration._id doc ∉ Registration._id <$> registrations db →
  duplicate_key doc (registrations db) = false.
Proof.
  intros Hu He Hun Hfresh. unfold duplicate_key.
  apply not_true_is_false. intros Hex.
  apply existsb_exists in Hex as (r & Hr & Hdup).
  apply list_elem_of_In in Hr.
  apply orb_true_iff in Hdup as [Hid | Hue].
  - apply bool_decide_eq_true in Hid. apply Hfresh.
    rewrite <- Hid. by apply list_elem_of_fmap_2.
  - apply andb_true_iff in Hue as [H1 H2].
    apply bool_decide_eq_true in H1, H2.
    apply (Hun r Hr). split; congruence.
Qed.

Lemma register_admitted :
  admissible user eventId db event →
  unregistered user eventId db →
  deadline_passed now event = false →
  occupancy eventId db < Event.maxCapacity (Event.registration event) →
  newId ∉ Registration._id <$> registrations db →
  serve (Register user eventId now newId) db
  = mkOutcome (admitted_db user eventId now newId db event)
              [mkLedgerCall eventId 1 newId]
              (Done (admitted_reply user eventId now newId db event)).
Proof.
  intros (Hev & Hst & Hel) Hun Hdl Hroom Hfresh.
  unfold serve, run; simpl. rewrite Hev; simpl.
  rewrite bool_decide_eq_true_2 by done. rewrite Hel; simpl.
  pose proof Hun as Hfind. apply findOne_none_iff in Hfind. rewrite Hfind; simpl.
  unfold deadline_passed in Hdl. rewrite Hdl; simpl.
  rewrite countDocuments_occupancy.
  destruct (Z.geb_spec (occupancy eventId db)
                       (Event.maxCapacity (Event.registration event))); [lia |].
  simpl. rewrite duplicate_key_false; try done.
Qed.

(** A call that gets past the deadline test ends in one of three ways. *)
Lemma register_capacity_test :
  admissible user eventId db event →
  unregistered user eventId db →
  deadline_passed now event = false →
  let o := serve (Register user eventId now newId) db in
  (Event.maxCapacity (Event.registration event) ≤ occupancy eventId db
   ∧ o = mkOutcome db [] (Done (EventFull, [])))
  ∨ (occupancy eventId db < Event.maxCapacity (Event.registration event)
     ∧ (o = mkOutcome (admitted_db user eventId now newId db event)
                      [mkLedgerCall eventId 1 newId]
                      (Done (admitted_reply user eventId now newId db event))
        ∨ ∃ e, o = mkOutcome db []
                     (Done (server_error "Registration failed" e, [])))).
Proof.
  intros Hadm Hun Hdl o.
  destruct (Z.le_gt_cases (Event.maxCapacity (Event.registration event))
                          (occupancy eventId db)) as [Hfull | Hroom].
  { left. split; [done |]. by apply register_full. }
  right. split; [lia |].
  subst o. destruct Hadm as (Hev & Hst & Hel).
  unfold serve, run; simpl. rewrite Hev; simpl.
  rewrite bool_decide_eq_true_2 by done. rewrite Hel; simpl.
  rewrite (proj2 (findOne_none_iff _ _ _) Hun); simpl.
  unfold deadline_passed in Hdl. rewrite Hdl; simpl.
  rewrite countDocuments_occupancy.
  destruct (Z.geb_spec (occupancy eventId db)
                       (Event.maxCapacity (Event.registration event))); [lia |].
  simpl. destruct (duplicate_key _ _); simpl; [right; eauto | by left].
Qed.

End Register.

(** ** Availability virtuals *)

(** C9.  [availableSlots] is [max(0, maxCapacity - currentCount)], hence never
    negative, also when the count has overshot the capacity; [isFull] holds
    exactly when [currentCount >= maxCapacity]. *)
Theorem availability_virtuals (e : Event.t) :
  let maxCapacity := Event.maxCapacity (Event.registration e) in
  let currentCount := Event.currentCount (Event.registration e) in
  Event.availableSlots e = Z.max 0 (maxCapacity - currentCount)
  ∧ 0 ≤ Event.availableSlots e
  ∧ (maxCapacity < currentCount → Event.availableSlots e = 0)
  ∧ (Event.isFull e = true ↔ maxCapacity ≤ currentCount).
Proof.
  unfold Event.availableSlots, Event.isFull; cbv zeta.
  repeat split; lia.
Qed.

Lemma availability_virtuals_overshoot :
  Event.availableSlots (Sample.event 3 5 None) = 0
  ∧ Event.isFull (Sample.event 3 5 None) = true.
Proof.
  destruct (availability_virtuals (Sample.event 3 5 None)) as (_ & _ & H0 & Hfull).
  split; [apply H0; simpl; lia | apply Hfull; simpl; lia].
Defined.

(** ** Deadline *)

(** C7 (as amended).  A register call that gets as far as the deadline test
    and is made strictly after the deadline is answered with "Registration
    deadline has passed", whatever the occupancy of the event, and writes
    nothing: the store is the one it started from and the counter is not
    called.  Made at the deadline instant or before, it is not answered
    that way. *)
Theorem register_after_deadline user eventId now newId db event deadline :
  admissible user eventId db event →
  unregistered user eventId db →
  Event.deadline (Event.registration event) = Some deadline →
  (deadline < now →
   serve (Register user eventId now newId) db
   = mkOutcome db [] (Done (DeadlinePassed, [])))
  ∧ (now ≤ deadline →
     response (serve (Register user eventId now newId) db) ≠ Some DeadlinePassed).
Proof.
  intros Hadm Hun Hdl. split; intros Hnow.
  - apply register_late with (event := event); try done.
    unfold deadline_passed. rewrite Hdl. by apply Z.ltb_lt.
  - assert (Hopen : deadline_passed now event = false).
    { unfold deadline_passed. rewrite Hdl. apply Z.ltb_ge. lia. }
    destruct (register_capacity_test user eventId now newId db event
                Hadm Hun Hopen) as [[_ ->] | [_ [-> | [e ->]]]]; discriminate.
Qed.

(** A full event, one second after its deadline. *)
Lemma register_after_deadline_full_event :
  let db := Sample.store (Sample.event 1 1 (Some 1000))
                         [Sample.registration "r0" "b0b" Registration.approved] in
  serve (Register Sample.alice "e1" 2000 "r1") db
  = mkOutcome db [] (Done (DeadlinePassed, [])).
Proof.
  intros db.
  apply (register_after_deadline Sample.alice "e1" 2000 "r1" db
           (Sample.event 1 1 (Some 1000)) 1000).
  - repeat split; reflexivity.
  - intros r Hr [Hu _]. apply list_elem_of_singleton in Hr. subst r. discriminate Hu.
  - reflexivity.
  - lia.
Defined.

(** At the deadline instant itself the call is admitted. *)
Lemma register_at_deadline_admitted :
  let db := Sample.store (Sample.event 1 0 (Some 1000)) [] in
  let o := serve (Register Sample.alice "e1" 1000 "r1") db in
  res_status <$> response o = Some 201
  ∧ response o ≠ Some DeadlinePassed
  ∧ currentCount_of "e1" db = Some 0
  ∧ currentCount_of "e1" (out_db o) = Some 1
  ∧ Registration._id <$> registrations (out_db o) = ["r1"].
Proof. vm_compute. repeat split; congruence. Qed.

(** ** Duplicate registrations *)

(** C6 (as amended).  For a register call that gets past the event look-up,
    the status test and the eligibility test, the answer is "You are already
    registered for this event" exactly when the collection holds a
    registration of that user for that event, in any status. *)
Theorem register_already_registered_iff user eventId now newId db event :
  admissible user eventId db event →
  response (serve (Register user eventId now newId) db) = Some AlreadyRegistered
  ↔ ∃ r, r ∈ registrations db ∧ registered (User._id user) eventId r.
Proof.
  intros Hadm. split.
  - intros Hres.
    destruct (List.find (matches (user_event_query (User._id user) eventId))
                        (registrations db)) as [r|] eqn:Hfind.
    { apply find_some_elem in Hfind as [Hr Hm].
      exists r. split; [done | by apply matches_user_event]. }
    exfalso.
    assert (Hun : unregistered user eventId db)
      by exact (proj1 (findOne_none_iff _ _ _) Hfind).
    destruct (deadline_passed now event) eqn:Hdl.
    { rewrite (register_late user eventId now newId db event) in Hres by done.
      discriminate Hres. }
    destruct (register_capacity_test user eventId now newId db event
                Hadm Hun Hdl) as [[_ Ho] | [_ [Ho | [e Ho]]]];
      rewrite Ho in Hres; discriminate Hres.
  - intros (r & Hr & Hreg).
    by rewrite (register_existing user eventId now newId db event r).
Qed.

Lemma register_already_registered_iff_sample :
  response (serve (Register Sample.alice "e1" 5 "r1")
                  (Sample.store (Sample.event 10 1 None)
                     [Sample.registration "r0" "a11ce" Registration.pending]))
  = Some AlreadyRegistered.
Proof.
  apply (register_already_registered_iff Sample.alice "e1" 5 "r1" _
           (Sample.event 10 1 None)).
  - repeat split; reflexivity.
  - exists (Sample.registration "r0" "a11ce" Registration.pending).
    split; [apply list_elem_of_here | split; reflexivity].
Defined.

(** A user whose only registration for the event is cancelled (a terminal
    status) is turned away as already registered. *)
Lemma cancelled_registration_blocks_register :
  let db := Sample.store (Sample.event 10 0 None)
              [Sample.registration "r0" "a11ce" Registration.cancelled] in
  (∀ r, r ∈ registrations db → registered "a11ce" "e1" r →
        Registration.status r = Registration.cancelled)
  ∧ serve (Register Sample.alice "e1" 5 "r1") db
    = mkOutcome db [] (Done (AlreadyRegistered, [])).
Proof.
  split.
  - intros r Hr _. apply list_elem_of_singleton in Hr. by subst r.
  - reflexivity.
Qed.

(** ** The admission count *)

(** C5 (as amended).  The figure the register route compares with
    [maxCapacity] is the number of registrations of the event whose status is
    [pending] or [approved]: a call that reaches the capacity test is answered
    "Event is full" exactly when that number has reached [maxCapacity], and an
    admitted call broadcasts that number plus one as [currentCount]. *)
Theorem admission_counts_pending_and_approved user eventId now newId db event :
  admissible user eventId db event →
  unregistered user eventId db →
  deadline_passed now event = false →
  let o := serve (Register user eventId now newId) db in
  (response o = Some EventFull
   ↔ Event.maxCapacity (Event.registration event) ≤ occupancy eventId db)
  ∧ (∀ room registration eid currentCount,
       emit_new_registration room registration eid currentCount ∈ emissions o →
       currentCount = occupancy eventId db + 1).
Proof.
  intros Hadm Hun Hdl o.
  destruct (register_capacity_test user eventId now newId db event Hadm Hun Hdl)
    as [[Hfull Ho] | [Hroom [Ho | [e Ho]]]]; fold o in Ho; rewrite Ho.
  - split; [done |]. intros ???? Hin. inversion Hin.
  - split; [split; [discriminate | lia] |].
    intros ???? Hin. unfold emissions, admitted_reply in Hin; simpl in Hin.
    apply elem_of_cons in Hin as [Heq | Hin]; [by inversion Heq |].
    destruct (Event.approvalRequired _);
      [apply list_elem_of_singleton in Hin; discriminate | inversion Hin].
  - split; [split; [discriminate | lia] |]. intros ???? Hin. inversion Hin.
Qed.

Lemma admission_counts_pending_and_approved_sample :
  let db := Sample.store (Sample.event 2 2 None)
              [Sample.registration "r0" "b0b" Registration.pending;
               Sample.registration "r9" "016a" Registration.approved] in
  response (serve (Register Sample.alice "e1" 5 "r1") db) = Some EventFull.
Proof.
  intros db.
  apply (admission_counts_pending_and_approved Sample.alice "e1" 5 "r1" db
           (Sample.event 2 2 None)).
  - repeat split; reflexivity.
  - intros r Hr [Hu _].
    repeat (apply elem_of_cons in Hr as [-> | Hr]; [discriminate Hu |]).
    inversion Hr.
  - reflexivity.
  - vm_compute. discriminate.
Defined.

(** An event of capacity one whose only registration is [attended]: by the
    data-model wording one slot is held, yet the route counts none and
    admits the next user. *)
Lemma attended_registration_is_not_counted :
  let db := Sample.store (Sample.event 1 1 None)
              [Sample.registration "r0" "b0b" Registration.attended] in
  let o := serve (Register Sample.alice "e1" 5 "r1") db in
  spec_occupancy "e1" db = 1
  ∧ Event.maxCapacity (Event.registration (Sample.event 1 1 None)) = 1
  ∧ res_status <$> response o = Some 201
  ∧ response o ≠ Some EventFull
  ∧ (∃ room registration,
       emissions o = [emit_new_registration room registration "e1" 1]).
Proof.
  vm_compute. repeat split; try congruence. eauto.
Qed.

(** ** Cancelling *)

(** What the cancel route does to a registration it finds, when the actor
    passes [canCancel] and the event document exists: it never looks at the
    current status. *)
Lemma cancel_any_status actor id reason db registration event :
  List.find (λ r, bool_decide (Registration._id r = id)) (registrations db)
    = Some registration →
  events db !! Registration.event registration = Some event →
  canCancel registration (Some event) actor = Some true →
  serve (Cancel actor id reason) db
  = mkOutcome
      (mkDB (alter (Event.inc_currentCount (-1))
                   (Registration.event registration) (events db))
            (update_by_id id (Registration.cancel reason) (registrations db)))
      [mkLedgerCall (Registration.event registration) (-1) id]
      (Done (success 200 "Registration cancelled successfully" no_data,
             [emit_registration_cancelled
                (room_of (Registration.event registration))
                (Registration.cancel reason registration)])).
Proof.
  intros Hfind Hev Hcan.
  unfold serve, run; simpl. rewrite Hfind; simpl. rewrite Hev, Hcan. done.
Qed.

(** C4, at a registration that is [rejected] on an event whose count is
    0: the route answers 200, rewrites the status to [cancelled], and the
    count drops to -1. *)
Theorem cancel_of_rejected_registration_succeeds :
  let db := Sample.store (Sample.event 5 0 None)
              [Sample.registration "r0" "a11ce" Registration.rejected] in
  let o := serve (Cancel Sample.alice "r0" None) db in
  response o = Some (success 200 "Registration cancelled successfully" no_data)
  ∧ status_of "r0" db = Some Registration.rejected
  ∧ status_of "r0" (out_db o) = Some Registration.cancelled
  ∧ currentCount_of "e1" db = Some 0
  ∧ currentCount_of "e1" (out_db o) = Some (-1)
  ∧ out_ledger o = [mkLedgerCall "e1" (-1) "r0"].
Proof. vm_compute. done. Qed.

(** ** Running programs: general facts *)

Lemma run_from_log {R} (p : Prog R) db log :
  run_from p db log
  = mkOutcome (out_db (run p db)) (log ++ out_ledger (run p db))
              (out_result (run p db)).
Proof.
  unfold run. revert db log.
  induction p as [r | e | A op k IH]; intros db log; simpl.
  - by rewrite app_nil_r.
  - by rewrite app_nil_r.
  - destruct (exec op db) as [[db' calls] a].
    rewrite (IH a db' (log ++ calls)), (IH a db' calls).
    simpl. by rewrite app_assoc.
Qed.

Lemma run_Await {R A} (op : DbOp A) (k : A → Prog R) db :
  run (Await op k) db
  = let '(db', calls, a) := exec op db in
    mkOutcome (out_db (run (k a) db')) (calls ++ out_ledger (run (k a) db'))
              (out_result (run (k a) db')).
Proof.
  unfold run at 1; simpl. destruct (exec op db) as [[db' calls] a].
  by rewrite run_from_log.
Qed.

Lemma run_bind {R S} (p : Prog R) (f : R → Prog S) db :
  run (bind p f) db
  = match out_result (run p db) with
    | Done r =>
        let o := run (f r) (out_db (run p db)) in
        mkOutcome (out_db o) (out_ledger (run p db) ++ out_ledger o) (out_result o)
    | Uncaught e =>
        mkOutcome (out_db (run p db)) (out_ledger (run p db)) (Uncaught e)
    end.
Proof.
  revert db. induction p as [r | e | A op k IH]; intros db.
  - simpl. by destruct (run (f r) db).
  - done.
  - simpl bind. rewrite !run_Await. destruct (exec op db) as [[db' calls] a].
    rewrite IH. simpl. destruct (out_result (run (k a) db')); simpl; [|done].
    by rewrite app_assoc.
Qed.

Lemma run_try_catch {R} (p : Prog R) (h : string → Prog R) db :
  run (try_catch p h) db
  = match out_result (run p db) with
    | Done r => run p db
    | Uncaught e =>
        let o := run (h e) (out_db (run p db)) in
        mkOutcome (out_db o) (out_ledger (run p db) ++ out_ledger o) (out_result o)
    end.
Proof.
  revert db. induction p as [r | e | A op k IH]; intros db.
  - done.
  - simpl. by destruct (run (h e) db).
  - simpl try_catch. rewrite !run_Await. destruct (exec op db) as [[db' calls] a].
    rewrite IH. simpl. destruct (out_result (run (k a) db')) eqn:Hres; simpl.
    + destruct (run (k a) db'); simpl in *. by subst.
    + by rewrite app_assoc.
Qed.

(** Serving a request alone is one of the schedules of the pool that holds
    only that request. *)
Lemma interleave_alone {R} (p : Prog R) db :
  ∃ n, interleave (replicate n 0%nat) [p] db
       = ([finished (run p db)], out_db (run p db)).
Proof.
  revert db. induction p as [r | e | A op k IH]; intros db.
  - by exists 0%nat.
  - by exists 0%nat.
  - rewrite run_Await. simpl.
    destruct (exec op db) as [[db' calls] a] eqn:Hex.
    destruct (IH a db') as [n Hn]. exists (S n). simpl. rewrite Hex. done.
Qed.

(** ** Racing for the last slot *)

Lemma occupancy_admitted user eventId now newId db event :
  occupancy eventId (admitted_db user eventId now newId db event)
  = occupancy eventId db + 1.
Proof.
  unfold occupancy, admitted_db; simpl.
  rewrite filter_app, length_app, filter_cons, decide_True; [simpl; lia |].
  split; [done |]. unfold counted, registrationData; simpl.
  destruct (Event.approvalRequired _); auto.
Qed.

(** C2 (as amended).  The capacity test and the increment are two separate
    awaited operations.  When two register calls of distinct users for an
    event with one slot left are served one after the other, the first is
    admitted and the second is answered "Event is full", leaving the store
    as the first call left it. *)
Theorem serial_race_for_last_slot user1 user2 eventId now1 now2 id1 id2 db event :
  admissible user1 eventId db event →
  admissible user2 eventId db event →
  unregistered user1 eventId db →
  unregistered user2 eventId db →
  deadline_passed now1 event = false →
  deadline_passed now2 event = false →
  User._id user1 ≠ User._id user2 →
  id1 ∉ Registration._id <$> registrations db →
  occupancy eventId db + 1 = Event.maxCapacity (Event.registration event) →
  let o1 := serve (Register user1 eventId now1 id1) db in
  let o2 := serve (Register user2 eventId now2 id2) (out_db o1) in
  res_status <$> response o1 = Some 201
  ∧ response o2 = Some EventFull
  ∧ out_db o2 = out_db o1
  ∧ occupancy eventId (out_db o2) = Event.maxCapacity (Event.registration event).
Proof.
  intros Ha1 Ha2 Hu1 Hu2 Hd1 Hd2 Hne Hfresh Hlast o1 o2.
  assert (Ho1 : o1 = mkOutcome (admitted_db user1 eventId now1 id1 db event)
                       [mkLedgerCall eventId 1 id1]
                       (Done (admitted_reply user1 eventId now1 id1 db event))).
  { apply register_admitted; try done. lia. }
  assert (Ho2 : o2 = mkOutcome (out_db o1) [] (Done (EventFull, []))).
  { subst o2. rewrite Ho1; simpl.
    apply register_full with (event := Event.inc_currentCount 1 event).
    - destruct Ha2 as (Hev & Hst & Hel). repeat split; try done.
      unfold admitted_db; simpl. by rewrite lookup_alter_eq, Hev.
    - intros r Hr [Hru Hre]. unfold admitted_db in Hr; simpl in Hr.
      apply elem_of_app in Hr as [Hr | Hr].
      + by apply (Hu2 r Hr).
      + apply list_elem_of_singleton in Hr. subst r. simpl in Hru. congruence.
    - done.
    - rewrite occupancy_admitted. simpl. lia. }
  rewrite Ho2, Ho1; simpl. repeat split; try done.
  rewrite occupancy_admitted. lia.
Qed.

Lemma serial_race_for_last_slot_sample :
  let db := Sample.store (Sample.event 1 0 None) [] in
  let o1 := serve (Register Sample.alice "e1" 5 "r1") db in
  let o2 := serve (Register Sample.bob "e1" 6 "r2") (out_db o1) in
  res_status <$> response o1 = Some 201
  ∧ response o2 = Some EventFull
  ∧ out_db o2 = out_db o1
  ∧ occupancy "e1" (out_db o2) = 1.
Proof.
  intros db.
  apply (serial_race_for_last_slot Sample.alice Sample.bob "e1" 5 6 "r1" "r2" db
           (Sample.event 1 0 None)).
  - repeat split; reflexivity.
  - repeat split; reflexivity.
  - intros r Hr. inversion Hr.
  - intros r Hr. inversion Hr.
  - reflexivity.
  - reflexivity.
  - discriminate.
  - intros Hin. inversion Hin.
  - reflexivity.
Defined.

(** Two register calls of distinct users for an event with one slot left,
    interleaved so that both read the admission count before either saves:
    both are admitted, and the event of capacity 1 ends with two approved
    registrations and a count of 2. *)
Lemma interleaved_race_admits_both :
  let db := Sample.store (Sample.event 1 0 None) [] in
  let pool := [register Sample.alice "e1" 5 "r1";
               register Sample.bob "e1" 6 "r2"] in
  let schedule := [0; 0; 0; 1; 1; 1; 0; 0; 0; 1; 1; 1]%nat in
  let after := interleave schedule pool db in
  (∃ reply1 reply2,
     after.1 = [Ret reply1; Ret reply2]
     ∧ res_status reply1.1 = 201 ∧ res_status reply2.1 = 201
     ∧ reply1.1 ≠ EventFull ∧ reply2.1 ≠ EventFull)
  ∧ Event.maxCapacity (Event.registration (Sample.event 1 0 None)) = 1
  ∧ currentCount_of "e1" after.2 = Some 2
  ∧ occupancy "e1" after.2 = 2
  ∧ Registration.status <$> registrations after.2
    = [Registration.approved; Registration.approved].
Proof.
  vm_compute. split; [| done].
  do 2 eexists. split; [reflexivity |]. repeat split; congruence.
Qed.

(** ** Documents, identifiers and in-place updates *)

Section Updates.
Variables (id : ObjectId) (f : Registration.t → Registration.t).
Hypothesis Hkeys : keeps_keys f.

Let by_id (i : ObjectId) : Registration.t → bool :=
  λ r, bool_decide (Registration._id r = i).

Lemma find_id_notin rs :
  id ∉ Registration._id <$> rs → List.find (by_id id) rs = None.
Proof.
  intros Hnot. apply find_none_iff. intros r Hr.
  apply bool_decide_eq_false. intros <-. apply Hnot.
  by apply list_elem_of_fmap_2.
Qed.

Lemma find_id_elem rs r :
  NoDup (Registration._id <$> rs) → r ∈ rs →
  List.find (by_id (Registration._id r)) rs = Some r.
Proof.
  induction rs as [|a rs IH]; intros Hnd Hr; [inversion Hr |].
  rewrite fmap_cons in Hnd. apply NoDup_cons in Hnd as [Ha Hnd].
  simpl. unfold by_id at 1. case_bool_decide as Heq.
  - apply elem_of_cons in Hr as [-> | Hr]; [done |].
    exfalso. apply Ha. rewrite Heq. by apply list_elem_of_fmap_2.
  - apply elem_of_cons in Hr as [-> | Hr]; [done | by apply IH].
Qed.

Lemma update_by_id_notin rs :
  id ∉ Registration._id <$> rs → update_by_id id f rs = rs.
Proof.
  induction rs as [|a rs IH]; [done |].
  rewrite fmap_cons, not_elem_of_cons. intros [Hne Hnot].
  simpl. rewrite bool_decide_eq_false_2 by done. by rewrite IH.
Qed.

Lemma update_by_id_ids rs :
  Registration._id <$> update_by_id id f rs = Registration._id <$> rs.
Proof.
  unfold update_by_id. induction rs as [|a rs IH]; [done |].
  cbn [map]. rewrite !fmap_cons, IH. f_equal.
  case_bool_decide; [apply Hkeys | done].
Qed.

Lemma find_update_same rs :
  List.find (by_id id) (update_by_id id f rs) = f <$> List.find (by_id id) rs.
Proof.
  unfold by_id, update_by_id. induction rs as [|a rs IH]; [done |].
  cbn [map List.find].
  destruct (decide (Registration._id a = id)) as [Heq | Hne].
  - rewrite (bool_decide_eq_true_2 _ Heq); cbv iota.
    rewrite bool_decide_eq_true_2; [done |]. by rewrite (proj1 (Hkeys a)).
  - rewrite !(bool_decide_eq_false_2 _ Hne); cbv iota. apply IH.
Qed.

Lemma find_update_other id' rs :
  id' ≠ id →
  List.find (by_id id') (update_by_id id f rs) = List.find (by_id id') rs.
Proof.
  intros Hne'. unfold by_id, update_by_id.
  induction rs as [|a rs IH]; [done |].
  cbn [map List.find].
  destruct (decide (Registration._id a = id)) as [Heq | Hne].
  - rewrite (bool_decide_eq_true_2 _ Heq); cbv iota.
    rewrite !bool_decide_eq_false_2; [apply IH | congruence |].
    rewrite (proj1 (Hkeys a)). congruence.
  - rewrite !(bool_decide_eq_false_2 _ Hne); cbv iota.
    destruct (bool_decide (Registration._id a = id')); [done | apply IH].
Qed.

Lemma elem_update_other r rs :
  r ∈ rs → Registration._id r ≠ id → r ∈ update_by_id id f rs.
Proof.
  intros Hr Hne. unfold update_by_id. apply list_elem_of_fmap.
  exists r. split; [| done]. by rewrite bool_decide_eq_false_2.
Qed.

Lemma elem_update_inv x rs :
  x ∈ update_by_id id f rs →
  ∃ r, r ∈ rs ∧ Registration.event x = Registration.event r.
Proof.
  unfold update_by_id. intros Hx. apply list_elem_of_fmap in Hx as (r & -> & Hr).
  exists r. split; [done |]. case_bool_decide; [apply Hkeys | done].
Qed.

(** With unique identifiers, an update by id touches one document. *)
Lemma update_by_id_split r rs :
  NoDup (Registration._id <$> rs) → r ∈ rs → Registration._id r = id →
  ∃ before after,
    rs = before ++ r :: after
    ∧ update_by_id id f rs = before ++ f r :: after.
Proof.
  intros Hnd Hr Hid.
  apply list_elem_of_split in Hr as (before & after & ->).
  exists before, after. split; [done |].
  rewrite fmap_app, fmap_cons in Hnd.
  apply NoDup_app in Hnd as (_ & Hdisj & Hnd).
  apply NoDup_cons in Hnd as [Hafter _].
  unfold update_by_id. rewrite map_app. simpl.
  rewrite bool_decide_eq_true_2 by done.
  fold (update_by_id id f before). fold (update_by_id id f after).
  rewrite !update_by_id_notin; [done | by rewrite <- Hid |].
  intros Hin. apply (Hdisj _ Hin). rewrite Hid. apply list_elem_of_here.
Qed.

End Updates.

Lemma status_of_update_same id f db evs :
  keeps_keys f →
  status_of id (mkDB evs (update_by_id id f (registrations db)))
  = Registration.status ∘ f <$>
      List.find (λ r, bool_decide (Registration._id r = id)) (registrations db).
Proof.
  intros Hk. unfold status_of; simpl.
  rewrite (find_update_same id f Hk). by destruct (List.find _ _).
Qed.

Lemma status_of_update_other id id' f db evs :
  keeps_keys f → id' ≠ id →
  status_of id' (mkDB evs (update_by_id id f (registrations db)))
  = status_of id' db.
Proof.
  intros Hk Hne. unfold status_of; simpl.
  by rewrite (find_update_other id f Hk).
Qed.

(** The assignments of the routes keep [_id] and [event]. *)
Lemma keeps_keys_approve actor now : keeps_keys (Registration.approve actor now).
Proof. done. Qed.
Lemma keeps_keys_reject reason actor now :
  keeps_keys (Registration.reject reason actor now).
Proof. done. Qed.
Lemma keeps_keys_cancel reason : keeps_keys (Registration.cancel reason).
Proof. done. Qed.
Lemma keeps_keys_markAttendance present now :
  keeps_keys (Registration.markAttendance present now).
Proof. done. Qed.
Lemma keeps_keys_location l : keeps_keys (Registration.set_checkIn_location l).
Proof. done. Qed.

(** ** What a served request does to the store

    Every request, served alone on a well-formed store, changes the store
    by a sequence of moves: a move either appends an admitted registration
    and increments the count of its event, or rewrites one registration in
    place and possibly decrements the count of its event. *)

Lemma Moves_one db s calls db' : Move db s calls db' → Moves db [s] calls db'.
Proof.
  intros H. rewrite <- (app_nil_r calls). eapply Moves_cons; [done | constructor].
Qed.

Lemma Moves_app db ss1 calls1 db' ss2 calls2 db'' :
  Moves db ss1 calls1 db' → Moves db' ss2 calls2 db'' →
  Moves db (ss1 ++ ss2) (calls1 ++ calls2) db''.
Proof.
  induction 1 as [| ? ? ? ? ? ? ? Hm _ IH]; intros H2; [done |].
  simpl. rewrite <- app_assoc. eapply Moves_cons; [done | by apply IH].
Qed.

Lemma duplicate_key_false_fresh doc rs :
  duplicate_key doc rs = false → Registration._id doc ∉ Registration._id <$> rs.
Proof.
  intros Hdup Hin. apply list_elem_of_fmap in Hin as (r & Heq & Hr).
  apply not_true_iff_false in Hdup. apply Hdup.
  unfold duplicate_key. apply existsb_exists. exists r.
  split; [by apply list_elem_of_In |].
  by rewrite bool_decide_eq_true_2.
Qed.

Lemma register_moves user eventId now newId db :
  let req := Register user eventId now newId in
  ∃ steps, Moves db steps (out_ledger (serve req db)) (out_db (serve req db))
           ∧ legal req steps.
Proof.
  intros req. subst req. unfold serve, run; simpl.
  destruct (events db !! eventId) as [event|] eqn:Hev; simpl;
    [| exists []; split; [constructor | by left]].
  destruct (bool_decide (Event.status event = Event.published)); simpl;
    [| exists []; split; [constructor | by left]].
  destruct (Event.canUserRegister event user); simpl;
    [| exists []; split; [constructor | by left]].
  destruct (List.find _ _); simpl; [exists []; split; [constructor | by left] |].
  destruct (match Event.deadline _ with Some d => d <? now | None => false end);
    simpl; [exists []; split; [constructor | by left] |].
  rewrite countDocuments_occupancy.
  destruct (Z.geb_spec (occupancy eventId db)
                       (Event.maxCapacity (Event.registration event)));
    simpl; [exists []; split; [constructor | by left] |].
  destruct (duplicate_key _ _) eqn:Hdup; simpl;
    [exists []; split; [constructor | by left] |].
  exists [mkStep newId None
            (Registration.status (registrationData user eventId event now newId))
            false].
  assert (Hcounted :
    counted (Registration.status (registrationData user eventId event now newId))).
  { unfold counted, registrationData; simpl.
    destruct (Event.approvalRequired _); auto. }
  split.
  - apply Moves_one.
    apply (Move_admit db (registrationData user eventId event now newId) event);
      try done.
    by apply duplicate_key_false_fresh.
  - right. eauto.
Qed.

Section SingleWrite.
Variable db : DB.
Hypothesis Hwf : well_formed db.

Lemma found_by_id id registration :
  List.find (λ r, bool_decide (Registration._id r = id)) (registrations db)
    = Some registration →
  registration ∈ registrations db ∧ Registration._id registration = id
  ∧ is_Some (events db !! Registration.event registration).
Proof.
  intros Hfind. apply find_some_elem in Hfind as [Hin Hid].
  apply bool_decide_eq_true in Hid. repeat split; try done. by apply Hwf.
Qed.

Lemma approval_moves actor id approved reason now :
  let req := Decide actor id approved reason now in
  ∃ steps, Moves db steps (out_ledger (serve req db)) (out_db (serve req db))
           ∧ legal req steps.
Proof.
  intros req. subst req. unfold serve, run; simpl.
  destruct (List.find _ _) as [registration|] eqn:Hfind; simpl;
    [| exists []; split; [constructor | by left]].
  destruct (found_by_id _ _ Hfind) as (Hin & Hid & [event Hev]).
  rewrite Hev; simpl.
  destruct (canApprove event actor); simpl; [| exists []; split; [constructor | by left]].
  case_bool_decide as Hst; simpl; [| exists []; split; [constructor | by left]].
  destruct approved; simpl.
  - exists [mkStep id (Some Registration.pending) Registration.approved false].
    split; [| by right].
    apply Moves_one. subst id.
    pose proof (Move_write db registration (Registration.approve actor now)
                  false Hin (keeps_keys_approve _ _)) as Hm.
    by rewrite Hst in Hm.
  - exists [mkStep id (Some Registration.pending) Registration.rejected true].
    split; [| by right].
    apply Moves_one. subst id.
    pose proof (Move_write db registration (Registration.reject reason actor now)
                  true Hin (keeps_keys_reject _ _ _)) as Hm.
    by rewrite Hst in Hm.
Qed.

Lemma cancel_moves actor id reason :
  let req := Cancel actor id reason in
  ∃ steps, Moves db steps (out_ledger (serve req db)) (out_db (serve req db))
           ∧ legal req steps.
Proof.
  intros req. subst req. unfold serve, run; simpl.
  destruct (List.find _ _) as [registration|] eqn:Hfind; simpl;
    [| exists []; split; [constructor | by left]].
  destruct (found_by_id _ _ Hfind) as (Hin & Hid & [event Hev]).
  rewrite Hev; simpl.
  destruct (canCancel registration (Some event) actor) as [[|]|]; simpl;
    try (exists []; split; [constructor | by left]).
  exists [mkStep id (Some (Registration.status registration))
            Registration.cancelled true].
  split; [| right; eauto].
  apply Moves_one. subst id.
  exact (Move_write db registration (Registration.cancel reason) true Hin
           (keeps_keys_cancel _)).
Qed.

End SingleWrite.

Lemma Move_well_formed db s calls db' :
  Move db s calls db' → well_formed db → well_formed db'.
Proof.
  intros Hm [Hnd Hev]. destruct Hm as [r e He _ _ Hfresh | r f release Hr Hk].
  - split.
    + unfold ids in *; simpl. rewrite fmap_app. apply NoDup_app.
      repeat split; [done | | apply NoDup_singleton].
      intros x Hx Hx'. apply list_elem_of_singleton in Hx'. by subst x.
    + simpl. intros x Hx. apply lookup_alter_is_Some.
      apply elem_of_app in Hx as [Hx | Hx]; [by apply Hev |].
      apply list_elem_of_singleton in Hx. subst x. by rewrite He.
  - split.
    + unfold ids, write; simpl. by rewrite update_by_id_ids.
    + unfold write; simpl. intros x Hx.
      apply (elem_update_inv _ _ Hk) in Hx as (r0 & Hr0 & ->).
      destruct release; [apply lookup_alter_is_Some |]; by apply Hev.
Qed.

Lemma Moves_well_formed db ss calls db' :
  Moves db ss calls db' → well_formed db → well_formed db'.
Proof.
  induction 1 as [| ? ? ? ? ? ? ? Hm _ IH]; [done |].
  intros Hwf. apply IH. by eapply Move_well_formed.
Qed.

Lemma attendance_moves db actor id present location now :
  well_formed db →
  let req := MarkAttendance actor id present location now in
  ∃ steps, Moves db steps (out_ledger (serve req db)) (out_db (serve req db))
           ∧ legal req steps.
Proof.
  intros Hwf req. subst req. unfold serve, run; simpl.
  destruct (List.find _ _) as [registration|] eqn:Hfind; simpl;
    [| exists []; split; [constructor | by left]].
  destruct (found_by_id db Hwf _ _ Hfind) as (Hin & Hid & [event Hev]).
  rewrite Hev; simpl.
  destruct (canApprove event actor); simpl; [| exists []; split; [constructor | by left]].
  case_bool_decide as Hst; simpl; [| exists []; split; [constructor | by left]].
  subst id.
  set (marked := Registration.markAttendance (default true present) now).
  pose proof (Move_write db registration marked false Hin
                (keeps_keys_markAttendance _ _)) as Hm1.
  rewrite Hst in Hm1.
  assert (Hto : Registration.status (marked registration)
                = if default true present
                  then Registration.attended else Registration.absent).
  { by destruct present as [[|]|]. }
  rewrite Hto in Hm1.
  assert (Hone : ∃ steps,
    Moves db steps [] (write registration marked false db)
    ∧ legal (MarkAttendance actor (Registration._id registration)
               present location now) steps).
  { eexists. split; [by apply Moves_one | right; by left]. }
  destruct location as [l|]; [| exact Hone].
  destruct (truthy present); simpl; [| exact Hone].
  set (db1 := write registration marked false db).
  assert (Hin1 : marked registration ∈ registrations db1).
  { unfold db1, write, update_by_id; simpl. apply list_elem_of_fmap.
    exists registration. by rewrite bool_decide_eq_true_2. }
  pose proof (Move_write db1 (marked registration)
                (Registration.set_checkIn_location l) false Hin1
                (keeps_keys_location _)) as Hm2.
  cbn [Registration.status Registration.set_checkIn_location
       Registration._id] in Hm2. rewrite Hto in Hm2.
  eexists. split.
  - change (@nil LedgerCall) with (write_calls registration false
                                   ++ write_calls (marked registration) false ++ []).
    eapply Moves_cons; [exact Hm1 |]. eapply Moves_cons; [exact Hm2 | constructor].
  - right; by right.
Qed.

(** *** The bulk loop *)

Section Bulk.
Variables (actor : User.t) (approved : bool) (reason : option string) (now : Z).

Lemma bulk_loop_cons item rest results :
  bulk_loop actor approved reason now (item :: rest) results
  = bind (bulk_iteration actor approved reason now item results)
         (bulk_loop actor approved reason now rest).
Proof. done. Qed.

Lemma bulk_loop_moves items : ∀ db results,
  well_formed db → ready db items →
  ∃ steps results',
    out_result (run (bulk_loop actor approved reason now items results) db)
      = Done results'
    ∧ br_id <$> results' = (br_id <$> results) ++ (Registration._id ∘ fst <$> items)
    ∧ Moves db steps
        (out_ledger (run (bulk_loop actor approved reason now items results) db))
        (out_db (run (bulk_loop actor approved reason now items results) db))
    ∧ Forall (λ s, st_id s ∈ Registration._id ∘ fst <$> items
                   ∧ bulk_step approved s) steps.
Proof.
  induction items as [| [r ev] rest IH]; intros db results Hwf [Hnd Hready].
  - exists [], results. simpl. rewrite app_nil_r. repeat split; constructor.
  - rewrite fmap_cons in Hnd. apply NoDup_cons in Hnd as [Hhead Hnd].
    destruct (Hready (r, ev) (list_elem_of_here _ _)) as (Hin & Hst & [e He]).
    simpl in Hin, Hst, He. subst ev.
    set (f := if approved then Registration.approve actor now
              else Registration.reject reason actor now).
    assert (Hk : keeps_keys f) by (unfold f; by destruct approved).
    pose proof (Move_write db r f (negb approved) Hin Hk) as Hm.
    set (db1 := write r f (negb approved) db) in *.
    set (results1 := results ++ [mkBulkResult (Registration._id r) true None]).
    assert (Hiter :
      run (bulk_iteration actor approved reason now (r, Some e) results) db
      = mkOutcome db1 (write_calls r (negb approved)) (Done results1)).
    { unfold f in *. by destruct approved. }
    assert (Hwf1 : well_formed db1) by (by eapply Move_well_formed).
    assert (Hready1 : ready db1 rest).
    { split; [done |]. intros item Hitem.
      destruct (Hready item (list_elem_of_further _ _ _ Hitem)) as (Hi & Hs & He).
      repeat split; try done.
      unfold db1, write; simpl. apply elem_update_other; [done |].
      intros Heq. apply Hhead. apply list_elem_of_fmap.
      exists item. split; [simpl; congruence | done]. }
    destruct (IH db1 results1 Hwf1 Hready1)
      as (steps & results' & Hres & Hids & Hmoves & Hlegal).
    exists (mkStep (Registration._id r) (Some (Registration.status r))
                   (Registration.status (f r)) (negb approved) :: steps), results'.
    rewrite bulk_loop_cons, run_bind, Hiter. simpl.
    rewrite Hres. simpl. repeat split.
    + rewrite Hids. unfold results1. by rewrite fmap_app, <- app_assoc.
    + eapply Moves_cons; done.
    + apply Forall_cons. split.
      * split; [apply list_elem_of_here |].
        unfold bulk_step, f; simpl. rewrite Hst. by destruct approved.
      * eapply Forall_impl; [exact Hlegal |].
        intros s [Hs ?]. split; [| done]. by apply list_elem_of_further.
Qed.

Lemma NoDup_ids_filter (p : Registration.t → bool) rs :
  NoDup (Registration._id <$> rs) → NoDup (Registration._id <$> List.filter p rs).
Proof.
  induction rs as [|a rs IH]; [done |].
  rewrite fmap_cons. intros [Ha Hnd]%NoDup_cons. simpl.
  destruct (p a); [| by apply IH].
  rewrite fmap_cons. apply NoDup_cons. split; [| by apply IH].
  intros Hin. apply Ha. apply list_elem_of_fmap in Hin as (x & -> & Hx).
  apply list_elem_of_fmap_2. apply list_elem_of_In in Hx.
  apply filter_In in Hx as [Hx _]. by apply list_elem_of_In.
Qed.

Lemma matches_bulk l r :
  matches (bulk_query l) r = true
  ↔ Registration._id r ∈ l ∧ Registration.status r = Registration.pending.
Proof.
  unfold matches, bulk_query; simpl.
  rewrite !andb_true_r, andb_true_iff, !bool_decide_eq_true. done.
Qed.

Lemma ready_found db l :
  well_formed db →
  ready db (populate_event db <$> List.filter (matches (bulk_query l))
                                              (registrations db)).
Proof.
  intros [Hnd Hev]. split.
  - rewrite <- list_fmap_compose.
    by apply (NoDup_ids_filter (matches (bulk_query l))).
  - intros item Hitem. apply list_elem_of_fmap in Hitem as (r & -> & Hr).
    apply list_elem_of_In, filter_In in Hr as [Hr Hm].
    apply list_elem_of_In in Hr. apply matches_bulk in Hm as [_ Hst].
    simpl. repeat split; [done | done | by apply Hev].
Qed.

(** The bulk route, on a list of ids: its reply carries one result per
    document found by the query, in store order, and the store moves by one
    step per such document. *)
Lemma bulk_approve_run db l :
  well_formed db →
  let o := serve (BulkDecide actor (Some l) approved reason now) db in
  ∃ steps results,
    out_result o
    = Done (success 200 (if approved then "Bulk approval completed"
                         else "Bulk rejection completed")
                    (data_results results), [])
    ∧ br_id <$> results
      = Registration._id <$> List.filter (matches (bulk_query l)) (registrations db)
    ∧ Moves db steps (out_ledger o) (out_db o)
    ∧ legal (BulkDecide actor (Some l) approved reason now) steps.
Proof.
  intros Hwf o. subst o. unfold serve; simpl handler. unfold bulk_approve.
  rewrite run_try_catch. unfold bulk_approve_body. rewrite run_Await. simpl exec.
  cbv iota beta. rewrite run_bind.
  destruct (bulk_loop_moves _ db [] Hwf (ready_found db l Hwf))
    as (steps & results & Hres & Hids & Hmoves & Hlegal).
  rewrite Hres. simpl.
  exists steps, results. repeat split.
  - rewrite Hids. simpl. by rewrite <- list_fmap_compose.
  - by rewrite app_nil_r.
  - right. eapply Forall_impl; [exact Hlegal |]. intros s [Hid Hstep].
    split; [| done]. exists l. split; [done |].
    rewrite <- list_fmap_compose in Hid.
    apply list_elem_of_fmap in Hid as (r & -> & Hin).
    apply list_elem_of_In, filter_In in Hin as [_ Hm].
    by apply matches_bulk in Hm as [? _].
Qed.

End Bulk.

Theorem serve_moves req db :
  well_formed db →
  ∃ steps, Moves db steps (out_ledger (serve req db)) (out_db (serve req db))
           ∧ legal req steps.
Proof.
  intros Hwf. destruct req as [user eventId now newId | actor id approved reason now
    | actor id present location now | actor id reason | actor [l|] approved reason now].
  - apply register_moves.
  - by apply approval_moves.
  - by apply attendance_moves.
  - by apply cancel_moves.
  - destruct (bulk_approve_run actor approved reason now db l Hwf)
      as (steps & results & _ & _ & Hm & Hl). eauto.
  - exists []. split; [constructor | by left].
Qed.

(** ** One registration seen through the moves *)

Lemma releases_app id calls1 calls2 :
  releases id (calls1 ++ calls2) = (releases id calls1 + releases id calls2)%nat.
Proof. unfold releases. by rewrite filter_app, length_app. Qed.

Lemma releases_write_calls id r release :
  releases id (write_calls r release)
  = if release && bool_decide (Registration._id r = id) then 1%nat else 0%nat.
Proof.
  destruct release; [| done]. unfold releases, write_calls.
  rewrite filter_cons. simpl. case_bool_decide.
  - by rewrite decide_True.
  - rewrite decide_False; [done |]. by intros [? _].
Qed.

Lemma releases_increment id eventId who :
  releases id [mkLedgerCall eventId 1 who] = 0%nat.
Proof.
  unfold releases. rewrite filter_cons, decide_False; [done |].
  by intros [_ ?].
Qed.

Lemma find_snoc {A} (p : A → bool) (l : list A) (x : A) :
  List.find p (l ++ [x])
  = match List.find p l with
    | Some y => Some y
    | None => if p x then Some x else None
    end.
Proof.
  induction l as [|a l IH]; simpl; [done |]. by destruct (p a).
Qed.

(** A move on [id] takes its status from [st_from] to [st_to] and releases
    as [st_release] says; a move on another registration leaves it alone. *)
Lemma Move_view id db s calls db' :
  well_formed db → Move db s calls db' →
  if bool_decide (st_id s = id)
  then status_of id db = st_from s
       ∧ status_of id db' = Some (st_to s)
       ∧ releases id calls = (if st_release s then 1%nat else 0%nat)
  else status_of id db' = status_of id db ∧ releases id calls = 0%nat.
Proof.
  intros [Hnd _] Hm.
  destruct Hm as [r e _ _ _ Hfresh | r f release Hr Hk];
    cbn [st_id st_from st_to st_release].
  - unfold status_of; cbn [registrations]. rewrite find_snoc.
    destruct (decide (Registration._id r = id)) as [Hid | Hid].
    + rewrite !(bool_decide_eq_true_2 _ Hid). subst id.
      by rewrite (find_id_notin _ _ Hfresh), releases_increment.
    + rewrite !(bool_decide_eq_false_2 _ Hid), releases_increment.
      split; [by destruct (List.find _ _) | done].
  - rewrite releases_write_calls.
    destruct (decide (Registration._id r = id)) as [Hid | Hid].
    + rewrite !(bool_decide_eq_true_2 _ Hid). subst id. unfold write.
      rewrite (status_of_update_same _ _ _ _ Hk).
      rewrite (find_id_elem _ _ Hnd Hr).
      unfold status_of. rewrite (find_id_elem _ _ Hnd Hr).
      by rewrite andb_true_r.
    + rewrite !(bool_decide_eq_false_2 _ Hid). unfold write.
      rewrite (status_of_update_other _ _ _ _ _ Hk) by done.
      by rewrite andb_false_r.
Qed.

Lemma Moves_nil_inv db ss calls db' :
  Moves db ss calls db' → ss = [] → calls = [] ∧ db' = db.
Proof. by destruct 1. Qed.

Lemma Moves_one_inv db s calls db' :
  Moves db [s] calls db' → Move db s calls db'.
Proof.
  inversion 1 as [| ? ? c ? ? c' ? Hm Hms]; subst.
  apply Moves_nil_inv in Hms as [-> ->]; [| done]. by rewrite app_nil_r.
Qed.

Lemma Moves_two_inv db s1 s2 calls db'' :
  Moves db [s1; s2] calls db'' →
  ∃ calls1 db' calls2,
    Move db s1 calls1 db' ∧ Move db' s2 calls2 db'' ∧ calls = calls1 ++ calls2.
Proof.
  inversion 1 as [| ? ? c1 db1 ? c2 ? Hm1 Hms]; subst.
  apply Moves_one_inv in Hms. eauto 10.
Qed.

Lemma bulk_moves_view id approved db ss calls db' :
  well_formed db → Moves db ss calls db' → Forall (bulk_step approved) ss →
  (status_of id db' = status_of id db ∧ releases id calls = 0%nat)
  ∨ (status_of id db = Some Registration.pending
     ∧ status_of id db'
       = Some (if approved then Registration.approved else Registration.rejected)
     ∧ releases id calls = if approved then 0%nat else 1%nat).
Proof.
  intros Hwf Hms. revert Hwf.
  induction Hms as [| db s calls db' ss calls' db'' Hm Hms IH]; intros Hwf Hall;
    [by left |].
  apply Forall_cons in Hall as [(Hfrom & Hto & Hrel) Hall].
  pose proof (Move_view id _ _ _ _ Hwf Hm) as Hview.
  specialize (IH (Move_well_formed _ _ _ _ Hm Hwf) Hall).
  rewrite releases_app. case_bool_decide as Hid.
  - destruct Hview as (Hbefore & Hafter & Hn). right.
    rewrite Hfrom in Hbefore. rewrite Hto in Hafter. rewrite Hrel in Hn.
    destruct IH as [[Hsame Hzero] | [Hpending _]].
    + rewrite Hsame, Hn, Hzero. by destruct approved.
    + rewrite Hafter in Hpending. by destruct approved.
  - destruct Hview as [Hsame Hzero]. rewrite Hzero, <- Hsame. exact IH.
Qed.

Lemma serve_well_formed req db :
  well_formed db → well_formed (out_db (serve req db)).
Proof.
  intros Hwf. destruct (serve_moves req db Hwf) as (steps & Hms & _).
  by eapply Moves_well_formed.
Qed.

Lemma serve_transition id req db :
  well_formed db →
  transition id req (status_of id db) (status_of id (out_db (serve req db)))
             (releases id (out_ledger (serve req db))).
Proof.
  intros Hwf. destruct (serve_moves req db Hwf) as (steps & Hms & Hlegal).
  destruct Hlegal as [-> | Hlegal].
  { apply Moves_nil_inv in Hms as [-> ->]; [by left | done]. }
  destruct req as [user eventId now newId | actor id' approved reason now
    | actor id' present location now | actor id' reason
    | actor registrationIds approved reason now].
  - destruct Hlegal as (s & Hs & ->). apply Moves_one_inv in Hms.
    pose proof (Move_view id _ _ _ _ Hwf Hms) as Hview.
    cbn [st_id st_from st_to st_release] in Hview.
    case_bool_decide.
    + destruct Hview as (-> & -> & ->). right; left.
      repeat split. destruct Hs as [-> | ->]; auto.
    + by left.
  - subst steps. apply Moves_one_inv in Hms.
    pose proof (Move_view id _ _ _ _ Hwf Hms) as Hview.
    cbn [st_id st_from st_to st_release] in Hview.
    case_bool_decide; [| by left].
    destruct Hview as (-> & -> & ->). destruct approved; simpl.
    + right; right; left. done.
    + right; right; right; left. done.
  - set (req := MarkAttendance actor id' present location now) in *.
    assert (Hcase : ∀ (s : Registration.Status) after n,
      s = Registration.attended ∨ s = Registration.absent →
      status_of id db = Some Registration.approved →
      after = Some s → n = 0%nat →
      transition id req (status_of id db) after n).
    { intros s after n [-> | ->] -> -> ->.
      - do 4 right; left. done.
      - do 5 right; left. done. }
    assert (Hs : (if default true present
                  then Registration.attended else Registration.absent)
                 = Registration.attended
                 ∨ (if default true present
                    then Registration.attended else Registration.absent)
                   = Registration.absent)
      by (destruct (default true present); auto).
    cbn [legal req] in Hlegal. destruct Hlegal as [-> | ->].
    + apply Moves_one_inv in Hms.
      pose proof (Move_view id _ _ _ _ Hwf Hms) as Hview.
      cbn [st_id st_from st_to st_release] in Hview.
      case_bool_decide; [| by left].
      destruct Hview as (Hb & Ha & Hn). by apply (Hcase _ _ _ Hs).
    + apply Moves_two_inv in Hms as (c1 & db1 & c2 & Hm1 & Hm2 & ->).
      pose proof (Move_view id _ _ _ _ Hwf Hm1) as Hv1.
      pose proof (Move_view id _ _ _ _ (Move_well_formed _ _ _ _ Hm1 Hwf) Hm2)
        as Hv2.
      cbn [st_id st_from st_to st_release] in Hv1, Hv2.
      rewrite releases_app. case_bool_decide.
      * destruct Hv1 as (Hb1 & Ha1 & Hn1). destruct Hv2 as (Hb2 & Ha2 & Hn2).
        apply (Hcase _ _ _ Hs); [done | done |]. by rewrite Hn1, Hn2.
      * destruct Hv1 as [Hs1 Hn1]. destruct Hv2 as [Hs2 Hn2].
        left. rewrite Hs2, Hs1, Hn1, Hn2. done.
  - destruct Hlegal as (s & ->). apply Moves_one_inv in Hms.
    pose proof (Move_view id _ _ _ _ Hwf Hms) as Hview.
    cbn [st_id st_from st_to st_release] in Hview.
    case_bool_decide as Hid; [| by left].
    destruct Hview as (-> & -> & ->). do 6 right.
    split; [subst id'; eauto |]. split; [by eexists |]. done.
  - assert (Hall : Forall (bulk_step approved) steps).
    { eapply Forall_impl; [exact Hlegal |]. by intros s [_ ?]. }
    destruct (bulk_moves_view id approved _ _ _ _ Hwf Hms Hall)
      as [[-> ->] | (-> & -> & ->)]; [by left |].
    destruct approved.
    + right; right; left. done.
    + right; right; right; left. done.
Qed.

(** ** Releases over the life of a registration *)

Lemma released_at_most_once id reqs : ∀ db,
  well_formed db → cancel_guarded id reqs db →
  (releases id (ledger_of reqs db) ≤ 1)%nat
  ∧ ((∃ s, status_of id db = Some s ∧ ¬ counted s) →
     releases id (ledger_of reqs db) = 0%nat).
Proof.
  induction reqs as [| req rest IH]; intros db Hwf Hguard; [simpl; auto |].
  destruct Hguard as [Hcancel Hguard].
  destruct (IH _ (serve_well_formed req db Hwf) Hguard) as [IH1 IH0].
  pose proof (serve_transition id req db Hwf) as Htr.
  cbn [ledger_of]. rewrite releases_app.
  destruct Htr as [[Hs Hn] | [(Hb & Ha & Hn) | [(Hb & Ha & Hn) | [(Hb & Ha & Hn)
    | [(Hb & Ha & Hn) | [(Hb & Ha & Hn)
    | ((actor & reason & ->) & Hb & Ha & Hn')]]]]]];
    [rewrite Hn .. |].
  - split; [lia |]. intros Hterm. rewrite IH0; [done |]. by rewrite Hs.
  - split; [lia |]. intros (s & Hs & _). congruence.
  - split; [lia |]. intros (s & Hs & Hc). exfalso. apply Hc.
    rewrite Hb in Hs. injection Hs as <-. by left.
  - rewrite IH0.
    + split; [lia |]. intros (s & Hs & Hc). exfalso. apply Hc.
      rewrite Hb in Hs. injection Hs as <-. by left.
    + exists Registration.rejected. split; [done |]. by intros [? | ?].
  - split; [lia |]. intros (s & Hs & Hc). exfalso. apply Hc.
    rewrite Hb in Hs. injection Hs as <-. by right.
  - split; [lia |]. intros (s & Hs & Hc). exfalso. apply Hc.
    rewrite Hb in Hs. injection Hs as <-. by right.
  - destruct (Hcancel eq_refl) as (s & Hs & Hc).
    rewrite (Hn' s Hs Hc), IH0.
    + split; [lia |]. intros (s' & Hs' & Hc'). exfalso. apply Hc'. congruence.
    + exists Registration.cancelled. split; [done |]. by intros [? | ?].
Qed.

(** C3 (as amended).  On a well-formed store, a served request decrements
    the count on behalf of a registration exactly once when it takes it from
    [pending] to [rejected] and exactly once when it cancels it while it is
    [pending] or [approved], and not at all when it takes it from [pending]
    to [approved], from [approved] to [attended] or from [approved] to
    [absent], or leaves it alone.  Hence over any run of requests in which
    cancel reaches the registration only while it is [pending] or
    [approved], the count is decremented on its behalf at most once. *)
Theorem release_per_transition id :
  (∀ req db,
     well_formed db →
     transition id req (status_of id db) (status_of id (out_db (serve req db)))
                (releases id (out_ledger (serve req db))))
  ∧ (∀ reqs db,
       well_formed db → cancel_guarded id reqs db →
       (releases id (ledger_of reqs db) ≤ 1)%nat).
Proof.
  split.
  - intros req db Hwf. by apply serve_transition.
  - intros reqs db Hwf Hguard. by apply released_at_most_once.
Qed.

Lemma well_formed_sample e rs :
  NoDup (Registration._id <$> rs) →
  (∀ r, r ∈ rs → Registration.event r = "e1") →
  well_formed (Sample.store e rs).
Proof.
  intros Hnd Hev. split; [done |]. intros r Hr. simpl in *.
  rewrite (Hev r Hr). by eexists.
Qed.

Lemma release_per_transition_sample :
  let db := Sample.store (Sample.event 5 1 None)
              [Sample.registration "r0" "a11ce" Registration.pending] in
  let reqs := [Decide Sample.olga "r0" false None 7;
               Decide Sample.olga "r0" false None 8;
               MarkAttendance Sample.olga "r0" (Some false) None 9] in
  (releases "r0" (ledger_of reqs db) ≤ 1)%nat.
Proof.
  intros db reqs. apply (proj2 (release_per_transition "r0") reqs db).
  - apply well_formed_sample.
    + apply NoDup_singleton.
    + intros r Hr. apply list_elem_of_singleton in Hr. by subst r.
  - simpl. done.
Defined.

(** Marking an approved registration absent leaves the count where it was:
    no decrement is made on its behalf. *)
Lemma absent_does_not_release :
  let db := Sample.store (Sample.event 5 1 None)
              [Sample.registration "r0" "a11ce" Registration.approved] in
  let o := serve (MarkAttendance Sample.olga "r0" (Some false) None 9) db in
  res_status <$> response o = Some 200
  ∧ status_of "r0" db = Some Registration.approved
  ∧ status_of "r0" (out_db o) = Some Registration.absent
  ∧ out_ledger o = []
  ∧ releases "r0" (out_ledger o) = 0%nat
  ∧ currentCount_of "e1" db = Some 1
  ∧ currentCount_of "e1" (out_db o) = Some 1.
Proof. vm_compute. done. Qed.

(** ** Bulk decisions *)

Lemma filter_bool_prop {A} (f : A → bool) (P : A → Prop)
    `{∀ x, Decision (P x)} (l : list A) :
  (∀ x, f x = true ↔ P x) → List.filter f l = filter P l.
Proof.
  intros Hf. induction l as [|a l IH]; [done |].
  simpl. rewrite filter_cons.
  destruct (f a) eqn:Hfa; destruct (decide (P a)) as [Hp | Hp].
  - by rewrite IH.
  - by apply Hf in Hfa.
  - apply Hf in Hp. congruence.
  - done.
Qed.

Lemma same_id_same_document db r x :
  well_formed db → r ∈ registrations db → x ∈ registrations db →
  Registration._id x = Registration._id r → x = r.
Proof.
  intros [Hnd _] Hr Hx Hid.
  pose proof (find_id_elem _ _ Hnd Hr) as H1.
  pose proof (find_id_elem _ _ Hnd Hx) as H2.
  rewrite Hid in H2. cbv beta in H1, H2. congruence.
Qed.

(** C10.  The bulk route answers 200 with one result per registration that
    is in the id list and [pending], in store order.  A registration of the
    list in any other status gets no result (so no error either) and keeps
    its status, whereas the single-registration route answers the same
    request for it with 400 "Registration is not pending approval". *)
Theorem bulk_skips_non_pending actor l approved reason now db r event :
  well_formed db →
  r ∈ registrations db →
  Registration.status r ≠ Registration.pending →
  events db !! Registration.event r = Some event →
  canApprove event actor = true →
  let bulk := serve (BulkDecide actor (Some l) approved reason now) db in
  let single := serve (Decide actor (Registration._id r) approved reason now) db in
  (∃ results,
     response bulk
       = Some (success 200 (if approved then "Bulk approval completed"
                            else "Bulk rejection completed")
                       (data_results results))
     ∧ br_id <$> results
       = Registration._id <$>
           filter (λ x, Registration._id x ∈ l
                        ∧ Registration.status x = Registration.pending)
                  (registrations db)
     ∧ Registration._id r ∉ br_id <$> results)
  ∧ status_of (Registration._id r) (out_db bulk) = Some (Registration.status r)
  ∧ single = mkOutcome db [] (Done (NotPending, [])).
Proof.
  intros Hwf Hr Hst Hev Hcan bulk single.
  destruct (bulk_approve_run actor approved reason now db l Hwf)
    as (steps & results & Hres & Hids & Hms & Hlegal).
  fold bulk in Hres, Hms.
  rewrite (filter_bool_prop _ _ _ (matches_bulk l)) in Hids.
  assert (Hfound : status_of (Registration._id r) db = Some (Registration.status r)).
  { unfold status_of. by rewrite (find_id_elem _ _ (proj1 Hwf) Hr). }
  split; [| split].
  - exists results. split; [| split; [done |]].
    + unfold response. by rewrite Hres.
    + rewrite Hids. intros Hin.
      apply list_elem_of_fmap in Hin as (x & Hid & Hx).
      apply list_elem_of_filter in Hx as [[_ Hpending] Hx].
      rewrite (same_id_same_document db r x Hwf Hr Hx) in Hpending; done.
  - destruct Hlegal as [-> | Hlegal].
    { apply Moves_nil_inv in Hms as [_ ->]; done. }
    assert (Hall : Forall (bulk_step approved) steps).
    { eapply Forall_impl; [exact Hlegal |]. by intros s [_ ?]. }
    destruct (bulk_moves_view (Registration._id r) approved _ _ _ _ Hwf Hms Hall)
      as [[-> _] | (Hpending & _)]; [done | congruence].
  - subst single. unfold serve, run; simpl.
    rewrite (find_id_elem _ _ (proj1 Hwf) Hr); simpl.
    rewrite Hev, Hcan; simpl.
    by rewrite bool_decide_eq_false_2.
Qed.

Lemma bulk_skips_non_pending_sample :
  let db := Sample.store (Sample.event 5 2 None)
              [Sample.registration "r0" "a11ce" Registration.approved;
               Sample.registration "r1" "b0b" Registration.pending] in
  let bulk := serve (BulkDecide Sample.olga (Some ["r0"; "r1"]) true None 7) db in
  let single := serve (Decide Sample.olga "r0" true None 7) db in
  (∃ results,
     response bulk = Some (success 200 "Bulk approval completed" (data_results results))
     ∧ br_id <$> results = ["r1"]
     ∧ "r0" ∉ br_id <$> results)
  ∧ status_of "r0" (out_db bulk) = Some Registration.approved
  ∧ single = mkOutcome db [] (Done (NotPending, [])).
Proof.
  intros db.
  apply (bulk_skips_non_pending Sample.olga ["r0"; "r1"] true None 7 db
           (Sample.registration "r0" "a11ce" Registration.approved)
           (Sample.event 5 2 None)).
  - apply well_formed_sample.
    + apply (bool_decide_unpack _). by vm_compute.
    + intros r Hr.
      repeat (apply elem_of_cons in Hr as [-> | Hr]; [done |]). inversion Hr.
  - apply list_elem_of_here.
  - discriminate.
  - reflexivity.
  - reflexivity.
Defined.

(** ** The count and the capacity *)

Lemma occupancy_write eventId db evs r f :
  NoDup (ids db) → r ∈ registrations db → keeps_keys f →
  occupancy eventId (mkDB evs (update_by_id (Registration._id r) f (registrations db)))
  + (if decide (Registration.event r = eventId ∧ counted (Registration.status r))
     then 1 else 0)
  = occupancy eventId db
    + (if decide (Registration.event r = eventId
                  ∧ counted (Registration.status (f r)))
       then 1 else 0).
Proof.
  intros Hnd Hr Hk.
  destruct (update_by_id_split _ f r _ Hnd Hr eq_refl)
    as (before & after & Hsplit & Hupd).
  unfold occupancy; cbn [registrations]. rewrite Hupd, Hsplit.
  rewrite !filter_app, !filter_cons, !length_app. cbv beta.
  rewrite (proj2 (Hk r)).
  repeat case_decide; simpl length; first [lia | tauto].
Qed.

Lemma occupancy_append eventId db evs r :
  occupancy eventId (mkDB evs (registrations db ++ [r]))
  = occupancy eventId db
    + (if decide (Registration.event r = eventId ∧ counted (Registration.status r))
       then 1 else 0).
Proof.
  unfold occupancy; cbn [registrations].
  rewrite filter_app, filter_cons, length_app. cbv beta.
  repeat case_decide; simpl length; first [lia | tauto].
Qed.

Lemma Move_bounded db s calls db' :
  well_formed db → bounded db → Move db s calls db' → keeps_bound s →
  bounded db'.
Proof.
  intros [Hnd _] Hb Hm Hkeep eventId e' He'.
  destruct Hm as [r e He Hroom Hcounted Hfresh | r f release Hr Hk].
  - cbn [events] in He'. rewrite occupancy_append.
    destruct (decide (Registration.event r = eventId)) as [<- | Hne].
    + rewrite lookup_alter_eq, He in He'. injection He' as <-.
      destruct (Hb _ _ He) as [Hlo Hhi].
      rewrite decide_True by done. simpl. lia.
    + rewrite lookup_alter_ne in He' by done.
      destruct (Hb _ _ He') as [Hlo Hhi].
      rewrite decide_False by (by intros [? _]). lia.
  - unfold write in *; cbn [events] in He'.
    pose proof (occupancy_write eventId db
                  (if release
                   then alter (Event.inc_currentCount (-1))
                          (Registration.event r) (events db)
                   else events db) r f Hnd Hr Hk) as Hocc.
    unfold keeps_bound in Hkeep; cbn [st_from st_to st_release] in Hkeep.
    destruct Hkeep as [Hback Hout].
    destruct (decide (Registration.event r = eventId)) as [<- | Hne].
    + assert (He : ∃ e, events db !! Registration.event r = Some e
                       ∧ Event.maxCapacity (Event.registration e')
                         = Event.maxCapacity (Event.registration e)
                       ∧ Event.currentCount (Event.registration e')
                         = Event.currentCount (Event.registration e)
                           - (if release then 1 else 0)).
      { destruct release.
        - rewrite lookup_alter_eq in He'.
          destruct (events db !! Registration.event r) as [e|]; [| done].
          injection He' as <-. exists e. simpl. repeat split; lia.
        - exists e'. repeat split; [done | lia]. }
      destruct He as (e & He & -> & ->). destruct (Hb _ _ He) as [Hlo Hhi].
      destruct (decide (counted (Registration.status r))) as [Hcf | Hcf];
        destruct (decide (counted (Registration.status (f r)))) as [Hct | Hct].
      * rewrite !decide_True in Hocc by done. destruct release; cbv iota in *; lia.
      * rewrite decide_True, decide_False in Hocc; [| by intros [_ ?] | done].
        rewrite (Hout Hcf Hct) in *. cbv iota in *. lia.
      * by destruct (Hcf (Hback Hct)).
      * rewrite !decide_False in Hocc; [| by intros [_ ?] | by intros [_ ?]].
        destruct release; cbv iota in *; lia.
    + rewrite !decide_False in Hocc; [| by intros [? _] | by intros [? _]].
      assert (He : events db !! eventId = Some e').
      { destruct release; [by rewrite lookup_alter_ne in He' | done]. }
      destruct (Hb _ _ He) as [Hlo Hhi]. lia.
Qed.

Lemma legal_keeps_bound req steps :
  leaves_attendance_alone req → legal req steps → Forall keeps_bound steps.
Proof.
  intros Hreq [-> | Hlegal]; [constructor |].
  destruct req as [? ? ? ? | ? ? approved ? ? | ? ? ? ? ? | ? ? ? | ? ? approved ? ?];
    [| | done | |].
  - destruct Hlegal as (s & _ & ->). by apply Forall_singleton.
  - subst steps. apply Forall_singleton.
    unfold keeps_bound, counted; destruct approved; cbn; intuition (auto; congruence).
  - destruct Hlegal as (s & ->). apply Forall_singleton.
    unfold keeps_bound, counted; cbn; intuition (auto; congruence).
  - eapply Forall_impl; [exact Hlegal |].
    intros s [_ (Hfrom & Hto & Hrel)]. unfold keeps_bound, counted.
    rewrite Hfrom, Hto, Hrel. destruct approved; cbn; intuition (auto; congruence).
Qed.

Lemma Moves_bounded db ss calls db' :
  Moves db ss calls db' → well_formed db → bounded db →
  Forall keeps_bound ss → bounded db'.
Proof.
  induction 1 as [| ? ? ? ? ? ? ? Hm _ IH]; intros Hwf Hb Hall; [done |].
  apply Forall_cons in Hall as [Hs Hall].
  apply IH; [by eapply Move_well_formed | by eapply Move_bounded | done].
Qed.

Lemma serve_all_cons req reqs db :
  serve_all (req :: reqs) db = serve_all reqs (out_db (serve req db)).
Proof. done. Qed.

(** Register, decide, cancel and bulk-decide requests, served one after the
    other from a well-formed store whose counts are within bounds, never take
    a count above the number of counted registrations nor that number above
    the capacity; in particular the count never exceeds the capacity. *)
Theorem count_within_capacity reqs : ∀ db,
  well_formed db → bounded db → Forall leaves_attendance_alone reqs →
  bounded (serve_all reqs db)
  ∧ ∀ eventId e, events (serve_all reqs db) !! eventId = Some e →
      Event.currentCount (Event.registration e)
      ≤ Event.maxCapacity (Event.registration e).
Proof.
  assert (Hinv : ∀ reqs db, well_formed db → bounded db →
                 Forall leaves_attendance_alone reqs → bounded (serve_all reqs db)).
  { clear reqs. induction reqs as [| req reqs IH]; intros db Hwf Hb Hall; [done |].
    apply Forall_cons in Hall as [Hreq Hall]. rewrite serve_all_cons.
    destruct (serve_moves req db Hwf) as (steps & Hms & Hlegal).
    apply IH; [by apply serve_well_formed | | done].
    eapply Moves_bounded; [exact Hms | done | done |].
    by eapply legal_keeps_bound. }
  intros db Hwf Hb Hall. split; [by apply Hinv |].
  intros eventId e He. destruct (Hinv reqs db Hwf Hb Hall _ _ He). lia.
Qed.

Lemma count_within_capacity_sample :
  let db := Sample.store (Sample.event 1 0 None) [] in
  let reqs := [Register Sample.alice "e1" 5 "r1";
               Register Sample.bob "e1" 6 "r2";
               Cancel Sample.alice "r1" None] in
  bounded (serve_all reqs db)
  ∧ ∀ eventId e, events (serve_all reqs db) !! eventId = Some e →
      Event.currentCount (Event.registration e)
      ≤ Event.maxCapacity (Event.registration e).
Proof.
  intros db reqs. apply (count_within_capacity reqs db).
  - apply well_formed_sample; [apply NoDup_nil_2 | intros r Hr; inversion Hr].
  - intros eventId e He. unfold db, Sample.store in He; simpl in He.
    destruct (decide (eventId = "e1")) as [-> | Hne].
    + rewrite lookup_singleton_eq in He. injection He as <-. by vm_compute.
    + by rewrite lookup_singleton_ne in He.
  - repeat constructor.
Defined.

(** C1, at [Register; Cancel; Cancel]: the second cancel of the same
    registration is served like the first, and the count of the event, 1
    after the registration and 0 after the first cancel, ends at -1. *)
Theorem double_cancel_drives_count_below_zero :
  let db := Sample.store (Sample.event 1 0 None) [] in
  let register := Register Sample.alice "e1" 5 "r1" in
  let cancel := Cancel Sample.alice "r1" None in
  well_formed db
  ∧ res_status <$> response (serve register db) = Some 201
  ∧ currentCount_of "e1" (serve_all [register] db) = Some 1
  ∧ res_status <$> response (serve cancel (serve_all [register] db)) = Some 200
  ∧ currentCount_of "e1" (serve_all [register; cancel] db) = Some 0
  ∧ res_status <$> response (serve cancel (serve_all [register; cancel] db))
    = Some 200
  ∧ currentCount_of "e1" (serve_all [register; cancel; cancel] db) = Some (-1).
Proof.
  split.
  - apply well_formed_sample; [apply NoDup_nil_2 | intros r Hr; inversion Hr].
  - vm_compute. done.
Qed.

(** Marking attendance takes a registration out of the admission count
    without touching the stored count, so with attendance requests in the
    run the stored count can pass the capacity. *)
Lemma attendance_lets_count_pass_capacity :
  let db := Sample.store (Sample.event 1 0 None) [] in
  let reqs := [Register Sample.alice "e1" 5 "r1";
               MarkAttendance Sample.olga "r1" (Some true) None 6;
               Register Sample.bob "e1" 7 "r2"] in
  currentCount_of "e1" (serve_all reqs db) = Some 2
  ∧ Registration.status <$> registrations (serve_all reqs db)
    = [Registration.attended; Registration.approved].
Proof. vm_compute. done. Qed.

(** ** The join frame of the client *)

Lemma joinEvent_open eventId this :
  WebSocketService.socket this = Some WebSocketService.OPEN →
  WebSocketService.joinEvent eventId this
  = [WebSocketService.mkFrame "join-event" eventId].
Proof.
  intros H. unfold WebSocketService.joinEvent, WebSocketService.send.
  by rewrite bool_decide_eq_true_2.
Qed.

Lemma joinEvent_not_open eventId this :
  WebSocketService.socket this ≠ Some WebSocketService.OPEN →
  WebSocketService.joinEvent eventId this = [].
Proof.
  intros H. unfold WebSocketService.joinEvent, WebSocketService.send.
  by rewrite bool_decide_eq_false_2.
Qed.

(** C8.  Whatever the router has delivered so far, a [Subscribe] to an event
    of the store at once leaves in the observer's queue exactly one event: a
    snapshot of that event whose [occupiedCountAfter] is the event's current
    count; and the observer is among the subscribers of the event.  No
    [Publish] is involved. *)
Theorem subscribe_delivers_snapshot eventId observer now db router occupiedCount :
  currentCount_of eventId db = Some occupiedCount →
  let router' := Router.Subscribe eventId observer now db router in
  (∃ snapshot,
     Router.queues router' !! observer = Some [snapshot]
     ∧ Router.kind snapshot = Router.Snapshot
     ∧ Router.eventId snapshot = eventId
     ∧ Router.occupiedCountAfter snapshot = occupiedCount)
  ∧ observer ∈ default [] (Router.subscribers router' !! eventId).
Proof.
  intros Hcount router'. subst router'. unfold Router.Subscribe.
  rewrite Hcount; cbn [Router.queues Router.subscribers]. split.
  - eexists. rewrite lookup_insert_eq. by repeat split.
  - rewrite lookup_insert_eq; cbn [default]. case_bool_decide; [done |].
    apply elem_of_app. right. apply list_elem_of_here.
Qed.

Lemma subscribe_delivers_snapshot_of_seven :
  let db := Sample.store (Sample.event 10 7 None) [] in
  let router := Router.mk 8 ∅ ∅ ∅ in
  let router' := Router.Subscribe "e1" 1%nat 100 db router in
  (∃ snapshot,
     Router.queues router' !! 1%nat = Some [snapshot]
     ∧ Router.kind snapshot = Router.Snapshot
     ∧ Router.eventId snapshot = "e1"
     ∧ Router.occupiedCountAfter snapshot = 7)
  ∧ 1%nat ∈ default [] (Router.subscribers router' !! "e1").
Proof.
  intros db router.
  apply (subscribe_delivers_snapshot "e1" 1%nat 100 db router 7).
  reflexivity.
Defined.

(** * Further properties of the routes *)

(** ** The ways each route can end *)

Lemma approval_cases actor id approved reason now db :
  let o := serve (Decide actor id approved reason now) db in
  refused db o
  ∨ ∃ r event res es,
      List.find (λ r, bool_decide (Registration._id r = id)) (registrations db)
        = Some r
      ∧ events db !! Registration.event r = Some event
      ∧ canApprove event actor = true
      ∧ Registration.status r = Registration.pending
      ∧ res_status res = 200
      ∧ o = mkOutcome
              (write r (if approved then Registration.approve actor now
                        else Registration.reject reason actor now)
                     (negb approved) db)
              (write_calls r (negb approved)) (Done (res, es)).
Proof.
  intros o. subst o. unfold serve, run, refused; simpl.
  destruct (List.find _ _) as [r|] eqn:Hfind; simpl; [| left; eauto].
  pose proof (find_some_elem _ _ _ Hfind) as [_ Hid].
  apply bool_decide_eq_true in Hid.
  destruct (events db !! Registration.event r) as [event|] eqn:Hev; simpl;
    [| left; eauto].
  destruct (canApprove event actor) eqn:Hcan; simpl; [| left; eauto].
  case_bool_decide as Hst; simpl; [| left; eauto].
  right. exists r, event. subst id.
  destruct approved; simpl; do 2 eexists; repeat split; try done.
Qed.

Lemma attendance_cases actor id present location now db :
  let o := serve (MarkAttendance actor id present location now) db in
  refused db o
  ∨ ∃ r event res es rs',
      List.find (λ r, bool_decide (Registration._id r = id)) (registrations db)
        = Some r
      ∧ events db !! Registration.event r = Some event
      ∧ canApprove event actor = true
      ∧ Registration.status r = Registration.approved
      ∧ res_status res = 200
      ∧ status_of id (mkDB (events db) rs')
        = Some (if default true present
                then Registration.attended else Registration.absent)
      ∧ o = mkOutcome (mkDB (events db) rs') [] (Done (res, es)).
Proof.
  intros o. subst o. unfold serve, run, refused; simpl.
  destruct (List.find _ _) as [r|] eqn:Hfind; simpl; [| left; eauto].
  destruct (events db !! Registration.event r) as [event|] eqn:Hev; simpl;
    [| left; eauto].
  destruct (canApprove event actor) eqn:Hcan; simpl; [| left; eauto].
  case_bool_decide as Hst; simpl; [| left; eauto].
  right. exists r, event.
  set (marked := Registration.markAttendance (default true present) now).
  assert (Hmarked : status_of id (mkDB (events db)
                                   (update_by_id id marked (registrations db)))
                    = Some (if default true present
                            then Registration.attended else Registration.absent)).
  { rewrite status_of_update_same by apply keeps_keys_markAttendance.
    by rewrite Hfind. }
  assert (Hlocated : ∀ l,
    status_of id (mkDB (events db)
                   (update_by_id id (Registration.set_checkIn_location l)
                      (update_by_id id marked (registrations db))))
    = Some (if default true present
            then Registration.attended else Registration.absent)).
  { intros l.
    rewrite (status_of_update_same id _
               (mkDB (events db) (update_by_id id marked (registrations db))))
      by apply keeps_keys_location.
    cbn [registrations].
    rewrite (find_update_same id marked (keeps_keys_markAttendance _ _)).
    by rewrite Hfind. }
  destruct location as [l|]; [destruct (truthy present) |]; simpl;
    do 3 eexists; repeat split; try done; try apply Hlocated; apply Hmarked.
Qed.

Lemma cancel_cases actor id reason db :
  let o := serve (Cancel actor id reason) db in
  refused db o
  ∨ ∃ r,
      List.find (λ r, bool_decide (Registration._id r = id)) (registrations db)
        = Some r
      ∧ ((∃ event res es,
            events db !! Registration.event r = Some event
            ∧ canCancel r (Some event) actor = Some true
            ∧ res_status res = 200
            ∧ o = mkOutcome (write r (Registration.cancel reason) true db)
                            (write_calls r true) (Done (res, es)))
         ∨ (events db !! Registration.event r = None
            ∧ Registration.user r = User._id actor
            ∧ o = mkOutcome (write r (Registration.cancel reason) false db) []
                    (Done (server_error "Failed to cancel registration"
                                        (null_event_error "_id"), [])))).
Proof.
  intros o. subst o. unfold serve, run, refused; simpl.
  destruct (List.find _ _) as [r|] eqn:Hfind; simpl; [| left; eauto].
  pose proof (find_some_elem _ _ _ Hfind) as [_ Hid].
  apply bool_decide_eq_true in Hid. subst id.
  destruct (events db !! Registration.event r) as [event|] eqn:Hev; simpl.
  - destruct (canCancel r (Some event) actor) as [[|]|] eqn:Hcan; simpl;
      [| left; eauto ..].
    right. exists r. split; [done |]. left. exists event.
    do 2 eexists. repeat split; done.
  - unfold canCancel. case_bool_decide as Huser; simpl; [| left; eauto].
    right. exists r. split; [done |]. by right.
Qed.

(** The bulk loop always runs to its end: a failing turn is caught inside
    the loop. *)
Lemma bulk_loop_done actor approved reason now items : ∀ results db,
  ∃ results',
    out_result (run (bulk_loop actor approved reason now items results) db)
    = Done results'.
Proof.
  induction items as [| [r ev] rest IH]; intros results db; [by eexists |].
  rewrite bulk_loop_cons, run_bind.
  assert (Hiter : ∃ results1,
    out_result (run (bulk_iteration actor approved reason now (r, ev) results) db)
    = Done results1).
  { unfold run; simpl. destruct approved; simpl; [by eexists |].
    destruct ev; simpl; by eexists. }
  destruct Hiter as [results1 ->]. simpl. apply IH.
Qed.

Lemma bulk_cases actor registrationIds approved reason now db :
  let o := serve (BulkDecide actor registrationIds approved reason now) db in
  refused db o ∨ ∃ res, response o = Some res ∧ res_status res = 200.
Proof.
  intros o. subst o. destruct registrationIds as [l|].
  - right. unfold serve; simpl handler. unfold bulk_approve.
    rewrite run_try_catch. unfold bulk_approve_body.
    rewrite run_Await. simpl exec. cbv iota beta. rewrite run_bind.
    destruct (bulk_loop_done actor approved reason now
                (populate_event db <$>
                   List.filter (matches (bulk_query l)) (registrations db))
                [] db) as [results Hres].
    rewrite Hres. unfold response; simpl. eauto.
  - left. unfold refused. eexists. split; [reflexivity | done].
Qed.

Lemma register_cases user eventId now newId db :
  let o := serve (Register user eventId now newId) db in
  refused db o
  ∨ ∃ event,
      admissible user eventId db event
      ∧ unregistered user eventId db
      ∧ deadline_passed now event = false
      ∧ (newId ∉ ids db)
      ∧ occupancy eventId db < Event.maxCapacity (Event.registration event)
      ∧ o = mkOutcome (admitted_db user eventId now newId db event)
                      [mkLedgerCall eventId 1 newId]
                      (Done (admitted_reply user eventId now newId db event)).
Proof.
  intros o. subst o. unfold serve, run, refused; simpl.
  destruct (events db !! eventId) as [event|] eqn:Hev; simpl; [| left; eauto].
  case_bool_decide as Hst; simpl; [| left; eauto].
  destruct (Event.canUserRegister event user) eqn:Hel; simpl; [| left; eauto].
  destruct (List.find _ _) eqn:Hfind; simpl; [left; eauto |].
  destruct (match Event.deadline _ with Some d => d <? now | None => false end)
    eqn:Hdl; simpl; [left; eauto |].
  rewrite countDocuments_occupancy.
  destruct (Z.geb_spec (occupancy eventId db)
                       (Event.maxCapacity (Event.registration event)));
    simpl; [left; eauto |].
  destruct (duplicate_key _ _) eqn:Hdup; simpl; [left; eauto |].
  right. exists event. repeat split; try done.
  - exact (proj1 (findOne_none_iff _ _ _) Hfind).
  - by apply duplicate_key_false_fresh in Hdup.
Qed.

(** ** Replies and writes *)

(** A reply with a 4xx status means that the request wrote nothing: the
    store is the one the request found and the counter was not called. *)
Theorem client_error_writes_nothing req db res :
  response (serve req db) = Some res →
  400 ≤ res_status res < 500 →
  out_db (serve req db) = db ∧ out_ledger (serve req db) = [].
Proof.
  intros Hres Hcode.
  assert (Hrefused : refused db (serve req db) → 
          out_db (serve req db) = db ∧ out_ledger (serve req db) = []).
  { by intros (res' & -> & _). }
  destruct req as [user eventId now newId | actor id approved reason now
    | actor id present location now | actor id reason
    | actor registrationIds approved reason now].
  - destruct (register_cases user eventId now newId db)
      as [Href | (event & _ & _ & _ & _ & _ & Ho)]; [by apply Hrefused |].
    rewrite Ho in Hres. injection Hres as <-. simpl in Hcode. lia.
  - destruct (approval_cases actor id approved reason now db)
      as [Href | (r & event & res' & es & _ & _ & _ & _ & H200 & Ho)];
      [by apply Hrefused |].
    rewrite Ho in Hres. injection Hres as <-. lia.
  - destruct (attendance_cases actor id present location now db)
      as [Href | (r & event & res' & es & rs' & _ & _ & _ & _ & H200 & _ & Ho)];
      [by apply Hrefused |].
    rewrite Ho in Hres. injection Hres as <-. lia.
  - destruct (cancel_cases actor id reason db)
      as [Href | (r & _ & [(event & res' & es & _ & _ & H200 & Ho) | (_ & _ & Ho)])];
      [by apply Hrefused | |];
      rewrite Ho in Hres; injection Hres as <-; simpl in Hcode; lia.
  - destruct (bulk_cases actor registrationIds approved reason now db)
      as [Href | (res' & Hres' & H200)]; [by apply Hrefused |].
    rewrite Hres in Hres'. injection Hres' as <-. lia.
Qed.

Lemma client_error_writes_nothing_sample :
  let db := Sample.store (Sample.event 5 1 None)
              [Sample.registration "r0" "a11ce" Registration.approved] in
  let o := serve (Decide Sample.olga "r0" false None 7) db in
  out_db o = db ∧ out_ledger o = [].
Proof.
  intros db. apply (client_error_writes_nothing _ db NotPending).
  - reflexivity.
  - simpl. lia.
Defined.

(** The attendance route, whatever it is asked and whatever it answers,
    leaves every event document as it was and never calls the counter. *)
Theorem attendance_leaves_events_alone actor id present location now db :
  let o := serve (MarkAttendance actor id present location now) db in
  events (out_db o) = events db ∧ out_ledger o = [].
Proof.
  intros o. subst o.
  destruct (attendance_cases actor id present location now db)
    as [(res & -> & _) | (r & event & res & es & rs' & _ & _ & _ & _ & _ & _ & ->)];
    done.
Qed.

(** When the register route reports success, the collection has gained
    exactly one registration, the new one, for that user and event, [pending]
    if the event requires approval and [approved] otherwise, with a payment
    due exactly when the event has a fee; the count of the event has gone up
    by one; and the approval broadcast went out exactly when approval is
    required. *)
Theorem successful_registration user eventId now newId db :
  let o := serve (Register user eventId now newId) db in
  res_success <$> response o = Some true →
  ∃ event r,
    events db !! eventId = Some event
    ∧ registrations (out_db o) = registrations db ++ [r]
    ∧ Registration._id r = newId
    ∧ Registration.user r = User._id user
    ∧ Registration.event r = eventId
    ∧ Registration.status r
      = (if Event.approvalRequired (Event.registration event)
         then Registration.pending else Registration.approved)
    ∧ (Registration.required (Registration.payment r) = true
       ↔ 0 < Event.fee_amount (Event.registration event))
    ∧ currentCount_of eventId (out_db o)
      = Some (Event.currentCount (Event.registration event) + 1)
    ∧ out_ledger o = [mkLedgerCall eventId 1 newId]
    ∧ (emit_registration_approval_needed r ∈ emissions o
       ↔ Event.approvalRequired (Event.registration event) = true).
Proof.
  intros o Hok. subst o.
  destruct (register_cases user eventId now newId db)
    as [(res & Ho & Hfail) | (event & (Hev & _) & _ & _ & _ & _ & Ho)];
    rewrite Ho in *.
  { simpl in Hok. congruence. }
  exists event, (registrationData user eventId event now newId).
  unfold admitted_db, admitted_reply, currentCount_of, emissions; simpl.
  repeat split; try done.
  - unfold registrationData; simpl.
    destruct (Z.ltb_spec 0 (Event.fee_amount (Event.registration event)));
      simpl; [done | discriminate].
  - unfold registrationData; simpl.
    destruct (Z.ltb_spec 0 (Event.fee_amount (Event.registration event)));
      simpl; [done | lia].
  - by rewrite lookup_alter_eq, Hev.
  - intros Hin. apply elem_of_cons in Hin as [Heq | Hin]; [discriminate |].
    destruct (Event.approvalRequired _); [done | inversion Hin].
  - intros ->. apply list_elem_of_further, list_elem_of_here.
Qed.

Lemma successful_registration_sample :
  let db := Sample.store (Sample.event 3 0 None) [] in
  let o := serve (Register Sample.alice "e1" 5 "r1") db in
  ∃ event r,
    events db !! "e1" = Some event
    ∧ registrations (out_db o) = registrations db ++ [r]
    ∧ Registration._id r = "r1"
    ∧ Registration.user r = User._id Sample.alice
    ∧ Registration.event r = "e1"
    ∧ Registration.status r
      = (if Event.approvalRequired (Event.registration event)
         then Registration.pending else Registration.approved)
    ∧ (Registration.required (Registration.payment r) = true
       ↔ 0 < Event.fee_amount (Event.registration event))
    ∧ currentCount_of "e1" (out_db o)
      = Some (Event.currentCount (Event.registration event) + 1)
    ∧ out_ledger o = [mkLedgerCall "e1" 1 "r1"]
    ∧ (emit_registration_approval_needed r ∈ emissions o
       ↔ Event.approvalRequired (Event.registration event) = true).
Proof.
  intros db. apply (successful_registration Sample.alice "e1" 5 "r1" db).
  reflexivity.
Defined.

(** ** Deciding and marking once *)

(** Once the approve route has reported success for a registration, a
    further decision on it, by anyone and either way, is refused and writes
    nothing. *)
Theorem second_decision_is_refused
    actor id approved reason now actor' approved' reason' now' db :
  let o := serve (Decide actor id approved reason now) db in
  res_success <$> response o = Some true →
  refused (out_db o) (serve (Decide actor' id approved' reason' now') (out_db o)).
Proof.
  intros o Hok. subst o.
  destruct (approval_cases actor id approved reason now db)
    as [(res & Ho & Hfail)
       | (r & event & res & es & Hfind & _ & _ & Hst & _ & Ho)];
    rewrite Ho in *.
  { simpl in Hok. congruence. }
  cbn [out_db].
  destruct (approval_cases actor' id approved' reason' now'
              (write r (if approved then Registration.approve actor now
                        else Registration.reject reason actor now)
                     (negb approved) db))
    as [Href | (r' & _ & _ & _ & Hfind' & _ & _ & Hst' & _)]; [done |].
  exfalso. apply find_some_elem in Hfind as Hid. destruct Hid as [_ Hid].
  apply bool_decide_eq_true in Hid. subst id.
  unfold write in Hfind'; cbn [registrations] in Hfind'.
  rewrite find_update_same in Hfind' by (by destruct approved).
  rewrite Hfind in Hfind'. injection Hfind' as <-.
  by destruct approved.
Qed.

Lemma second_decision_is_refused_sample :
  let db := Sample.store (Sample.event 5 1 None)
              [Sample.registration "r0" "a11ce" Registration.pending] in
  let o := serve (Decide Sample.olga "r0" true None 7) db in
  refused (out_db o) (serve (Decide Sample.olga "r0" false None 8) (out_db o)).
Proof.
  intros db.
  apply (second_decision_is_refused Sample.olga "r0" true None 7
           Sample.olga false None 8 db).
  reflexivity.
Defined.

(** Once the attendance route has reported success for a registration, a
    further attendance mark and a decision on it are both refused and write
    nothing. *)
Theorem marked_registration_is_closed
    actor id present location now actor' present' location' approved' reason'
    now' db :
  let o := serve (MarkAttendance actor id present location now) db in
  res_success <$> response o = Some true →
  refused (out_db o)
          (serve (MarkAttendance actor' id present' location' now') (out_db o))
  ∧ refused (out_db o)
            (serve (Decide actor' id approved' reason' now') (out_db o)).
Proof.
  intros o Hok. subst o.
  destruct (attendance_cases actor id present location now db)
    as [(res & Ho & Hfail)
       | (r & event & res & es & rs' & _ & _ & _ & _ & _ & Hafter & Ho)];
    rewrite Ho in *.
  { simpl in Hok. congruence. }
  cbn [out_db]. unfold status_of in Hafter. split.
  - destruct (attendance_cases actor' id present' location' now'
                (mkDB (events db) rs'))
      as [Href | (r' & _ & _ & _ & _ & Hfind' & _ & _ & Hst' & _)]; [done |].
    exfalso. rewrite Hfind' in Hafter. simpl in Hafter.
    rewrite Hst' in Hafter. by destruct (default true present).
  - destruct (approval_cases actor' id approved' reason' now'
                (mkDB (events db) rs'))
      as [Href | (r' & _ & _ & _ & Hfind' & _ & _ & Hst' & _)]; [done |].
    exfalso. rewrite Hfind' in Hafter. simpl in Hafter.
    rewrite Hst' in Hafter. by destruct (default true present).
Qed.

Lemma marked_registration_is_closed_sample :
  let db := Sample.store (Sample.event 5 1 None)
              [Sample.registration "r0" "a11ce" Registration.approved] in
  let o := serve (MarkAttendance Sample.olga "r0" (Some false) None 7) db in
  refused (out_db o)
          (serve (MarkAttendance Sample.olga "r0" (Some true) None 8) (out_db o))
  ∧ refused (out_db o) (serve (Decide Sample.olga "r0" true None 8) (out_db o)).
Proof.
  intros db.
  apply (marked_registration_is_closed Sample.olga "r0" (Some false) None 7
           Sample.olga (Some true) None true None 8 db).
  reflexivity.
Defined.

(** ** Authority *)

(** A request that changes the store through the approve or the attendance
    route comes from the organizer of the event, one of its co-organizers, a
    holder of the [approve_events] permission or an admin; one that changes it
    through the cancel route comes from the registrant, the organizer or an
    admin. *)
Theorem writes_require_authority actor id db :
  (∀ approved reason now present location,
     out_db (serve (Decide actor id approved reason now) db) ≠ db
     ∨ out_db (serve (MarkAttendance actor id present location now) db) ≠ db →
     ∃ r event,
       r ∈ registrations db ∧ Registration._id r = id
       ∧ events db !! Registration.event r = Some event
       ∧ (Event.organizer event = User._id actor
          ∨ User._id actor ∈ Event.coOrganizers event
          ∨ "approve_events" ∈ User.permissions actor
          ∨ User.role actor = role_admin))
  ∧ (∀ reason,
       out_db (serve (Cancel actor id reason) db) ≠ db →
       ∃ r,
         r ∈ registrations db ∧ Registration._id r = id
         ∧ (Registration.user r = User._id actor
            ∨ (∃ event, events db !! Registration.event r = Some event
                        ∧ Event.organizer event = User._id actor)
            ∨ User.role actor = role_admin)).
Proof.
  assert (Hauth : ∀ event, canApprove event actor = true →
            Event.organizer event = User._id actor
            ∨ User._id actor ∈ Event.coOrganizers event
            ∨ "approve_events" ∈ User.permissions actor
            ∨ User.role actor = role_admin).
  { intros event. unfold canApprove, User.hasPermission.
    rewrite !orb_true_iff, !bool_decide_eq_true. tauto. }
  split.
  - intros approved reason now present location [Hch | Hch].
    + destruct (approval_cases actor id approved reason now db)
        as [(res & Ho & _) | (r & event & res & es & Hfind & Hev & Hcan & _)].
      { by rewrite Ho in Hch. }
      apply find_some_elem in Hfind as [Hr Hid].
      apply bool_decide_eq_true in Hid. exists r, event. auto.
    + destruct (attendance_cases actor id present location now db)
        as [(res & Ho & _)
           | (r & event & res & es & rs' & Hfind & Hev & Hcan & _)].
      { by rewrite Ho in Hch. }
      apply find_some_elem in Hfind as [Hr Hid].
      apply bool_decide_eq_true in Hid. exists r, event. auto.
  - intros reason Hch.
    destruct (cancel_cases actor id reason db)
      as [(res & Ho & _)
         | (r & Hfind & [(event & res & es & Hev & Hcan & _) | (_ & Huser & _)])].
    { by rewrite Ho in Hch. }
    + apply find_some_elem in Hfind as [Hr Hid].
      apply bool_decide_eq_true in Hid. exists r. repeat split; try done.
      unfold canCancel in Hcan. case_bool_decide; [by left |].
      injection Hcan as Hcan. apply orb_true_iff in Hcan as [Ho | Ha].
      * right; left. apply bool_decide_eq_true in Ho. eauto.
      * right; right. by apply bool_decide_eq_true in Ha.
    + apply find_some_elem in Hfind as [Hr Hid].
      apply bool_decide_eq_true in Hid. exists r. auto.
Qed.

Lemma writes_require_authority_sample :
  let db := Sample.store (Sample.event 5 1 None)
              [Sample.registration "r0" "a11ce" Registration.pending] in
  ∃ r event,
    r ∈ registrations db ∧ Registration._id r = "r0"
    ∧ events db !! Registration.event r = Some event
    ∧ (Event.organizer event = User._id Sample.olga
       ∨ User._id Sample.olga ∈ Event.coOrganizers event
       ∨ "approve_events" ∈ User.permissions Sample.olga
       ∨ User.role Sample.olga = role_admin).
Proof.
  intros db.
  apply (proj1 (writes_require_authority Sample.olga "r0" db)
           true None 7 None None).
  left. vm_compute. discriminate.
Defined.

(** ** A registration whose event document is gone *)

(** When the event of a registration no longer exists, a cancel by the
    registrant is answered 500 although the registration has been rewritten
    to [cancelled]; no count is touched.  A cancel by anybody else is
    answered 500 and writes nothing. *)
Theorem cancel_without_event actor id reason db r :
  List.find (λ r, bool_decide (Registration._id r = id)) (registrations db)
    = Some r →
  events db !! Registration.event r = None →
  let o := serve (Cancel actor id reason) db in
  res_status <$> response o = Some 500
  ∧ events (out_db o) = events db
  ∧ out_ledger o = []
  ∧ (Registration.user r = User._id actor →
     status_of id (out_db o) = Some Registration.cancelled)
  ∧ (Registration.user r ≠ User._id actor → out_db o = db).
Proof.
  intros Hfind Hev o. subst o.
  unfold serve, run; simpl. rewrite Hfind; simpl. rewrite Hev.
  unfold canCancel. case_bool_decide as Huser; simpl.
  - repeat split; try done. intros _.
    rewrite status_of_update_same by apply keeps_keys_cancel.
    by rewrite Hfind.
  - by repeat split.
Qed.

Lemma cancel_without_event_sample :
  let db := mkDB ∅ [Sample.registration "r0" "a11ce" Registration.approved] in
  let o := serve (Cancel Sample.alice "r0" None) db in
  res_status <$> response o = Some 500
  ∧ events (out_db o) = events db
  ∧ out_ledger o = []
  ∧ status_of "r0" (out_db o) = Some Registration.cancelled.
Proof.
  intros db o.
  destruct (cancel_without_event Sample.alice "r0" None db
              (Sample.registration "r0" "a11ce" Registration.approved))
    as (Hstatus & Hevents & Hledger & Hown & _); [reflexivity | reflexivity |].
  split; [exact Hstatus |]. split; [exact Hevents |].
  split; [exact Hledger |]. apply Hown. reflexivity.
Defined.

(** ** Well-formed stores *)

(** Requests served one after the other keep registration ids unique and
    every registration attached to an existing event. *)
Theorem runs_keep_store_well_formed reqs : ∀ db,
  well_formed db → well_formed (serve_all reqs db).
Proof.
  induction reqs as [| req reqs IH]; intros db Hwf; [done |].
  rewrite serve_all_cons. apply IH. by apply serve_well_formed.
Qed.

Lemma runs_keep_store_well_formed_sample :
  well_formed
    (serve_all [Register Sample.alice "e1" 5 "r1";
                Register Sample.bob "e1" 6 "r1";
                Cancel Sample.alice "r1" None]
               (Sample.store (Sample.event 2 0 None) [])).
Proof.
  apply runs_keep_store_well_formed.
  apply well_formed_sample; [apply NoDup_nil_2 | intros r Hr; inversion Hr].
Defined.

(** ** What no interleaving of the routes can do *)

Lemma inc_currentCount_zero e : Event.inc_currentCount 0 e = e.
Proof.
  destruct e as [? ? [] ?]. unfold Event.inc_currentCount; simpl.
  by rewrite Z.add_0_r.
Qed.

Lemma inc_currentCount_twice d1 d2 e :
  Event.inc_currentCount d2 (Event.inc_currentCount d1 e)
  = Event.inc_currentCount (d1 + d2) e.
Proof.
  unfold Event.inc_currentCount; simpl. by rewrite Z.add_assoc.
Qed.

Lemma grows_refl db : grows db db.
Proof.
  split.
  - exists []. by rewrite app_nil_r.
  - intros eventId. destruct (events db !! eventId) as [e|]; [| done].
    exists 0. by rewrite inc_currentCount_zero.
Qed.

Lemma grows_trans db1 db2 db3 : grows db1 db2 → grows db2 db3 → grows db1 db3.
Proof.
  intros [[a1 H1] E1] [[a2 H2] E2]. split.
  - exists (a1 ++ a2). by rewrite H2, H1, app_assoc.
  - intros eventId. specialize (E1 eventId). specialize (E2 eventId).
    destruct (events db1 !! eventId) as [e1|], (events db2 !! eventId) as [e2|],
      (events db3 !! eventId) as [e3|]; try done.
    destruct E1 as [d1 ->], E2 as [d2 ->].
    exists (d1 + d2). by rewrite inc_currentCount_twice.
Qed.

Lemma update_by_id_fmap {B} (g : Registration.t → B) id f rs :
  (∀ r, g (f r) = g r) → g <$> update_by_id id f rs = g <$> rs.
Proof.
  intros Hg. unfold update_by_id. induction rs as [|a rs IH]; [done |].
  cbn [map]. rewrite !fmap_cons, IH. f_equal. by case_bool_decide.
Qed.

Lemma exec_grows {A} (op : DbOp A) db :
  op_ok op → grows db (exec op db).1.1.
Proof.
  destruct op; intros Hok; cbn [exec]; try apply grows_refl.
  - split; cbn [registrations events fst].
    + exists []. by rewrite app_nil_r.
    + intros eventId. destruct (decide (id = eventId)) as [-> | Hne].
      * rewrite lookup_alter_eq.
        destruct (events db !! eventId) as [e|]; simpl; eauto.
      * rewrite lookup_alter_ne by done.
        destruct (events db !! eventId) as [e|]; [| done].
        exists 0. by rewrite inc_currentCount_zero.
  - destruct (duplicate_key doc (registrations db)); [apply grows_refl |].
    split; cbn [registrations events fst].
    + exists [identity doc]. by rewrite fmap_app.
    + intros eventId. destruct (events db !! eventId) as [e|]; [| done].
      exists 0. by rewrite inc_currentCount_zero.
  - split; cbn [registrations events fst].
    + exists []. rewrite app_nil_r. apply update_by_id_fmap.
      intros r. unfold identity. destruct (Hok r) as (-> & -> & ->). done.
    + intros eventId. destruct (events db !! eventId) as [e|]; [| done].
      exists 0. by rewrite inc_currentCount_zero.
Qed.

Lemma exec_unique_index {A} (op : DbOp A) db :
  op_ok op → unique_index db → unique_index (exec op db).1.1.
Proof.
  destruct op; intros Hok [Hid Hpair]; cbn [exec]; try done.
  - destruct (duplicate_key doc (registrations db)) eqn:Hdup; [done |].
    cbn [fst]. unfold unique_index; cbn [registrations].
    assert (Hfresh : ∀ r, r ∈ registrations db →
              Registration._id r ≠ Registration._id doc
              ∧ (Registration.user r, Registration.event r)
                ≠ (Registration.user doc, Registration.event doc)).
    { intros r Hr. apply not_true_iff_false in Hdup.
      split; intros Heq; apply Hdup; unfold duplicate_key;
        apply existsb_exists; exists r;
        (split; [by apply list_elem_of_In |]).
      - by rewrite bool_decide_eq_true_2.
      - injection Heq as Hu He.
        rewrite (bool_decide_eq_true_2 _ Hu), (bool_decide_eq_true_2 _ He).
        by rewrite orb_true_r. }
    rewrite !fmap_app. split; apply NoDup_app; repeat split; try done;
      try apply NoDup_singleton.
    + intros x Hx Hx'. apply list_elem_of_singleton in Hx'. subst x.
      apply list_elem_of_fmap in Hx as (r & Heq & Hr).
      by destruct (Hfresh r Hr) as [Hne _].
    + intros x Hx Hx'. apply list_elem_of_singleton in Hx'. subst x.
      apply list_elem_of_fmap in Hx as (r & Heq & Hr).
      by destruct (Hfresh r Hr) as [_ Hne].
  - cbn [fst]. unfold unique_index; cbn [registrations].
    rewrite !update_by_id_fmap; [done | |].
    + intros r. destruct (Hok r) as (_ & -> & ->). done.
    + intros r. by destruct (Hok r) as (-> & _).
Qed.

Lemma step_safe {R} (p : Prog R) db : safe p → safe (step p db).1.1.
Proof.
  intros Hp. destruct Hp as [r | e | A op k Hop Hk]; cbn [step]; try constructor.
  destruct (exec op db) as [[db' calls] a]. apply Hk.
Qed.

(** A property of the store that every operation of a safe program keeps is
    kept by any schedule of any pool of safe programs. *)
Lemma interleave_keeps {R} (P : DB → Prop) :
  (∀ A (op : DbOp A) db, op_ok op → P db → P (exec op db).1.1) →
  ∀ schedule (pool : list (Prog R)) db,
    Forall safe pool → P db → P (interleave schedule pool db).2.
Proof.
  intros Hexec schedule.
  induction schedule as [| i schedule IH]; intros pool db Hsafe HP; [done |].
  cbn [interleave]. destruct (pool !! i) as [p|] eqn:Hp; [| by apply IH].
  assert (Hsp : safe p) by (eapply Forall_lookup_1; eauto).
  pose proof (step_safe p db Hsp) as Hstep.
  destruct Hsp as [r | e | A op k Hop Hk]; cbn [step] in *.
  - apply IH; [| done]. by rewrite list_insert_id.
  - apply IH; [| done]. by rewrite list_insert_id.
  - specialize (Hexec A op db Hop HP).
    destruct (exec op db) as [[db' calls] a]. apply IH; [| done].
    apply Forall_insert; [done | apply Hk].
Qed.

Lemma safe_try_catch {R} (p : Prog R) h :
  safe p → (∀ e, safe (h e)) → safe (try_catch p h).
Proof.
  intros Hp Hh. induction Hp as [r | e | A op k Hop Hk IH]; simpl;
    [constructor | apply Hh | by constructor].
Qed.

Lemma safe_bind {R S} (p : Prog R) (f : R → Prog S) :
  safe p → (∀ r, safe (f r)) → safe (bind p f).
Proof.
  intros Hp Hf. induction Hp as [r | e | A op k Hop Hk IH]; simpl;
    [apply Hf | constructor | by constructor].
Qed.

Lemma keeps_identity_approve actor now :
  keeps_identity (Registration.approve actor now).
Proof. done. Qed.
Lemma keeps_identity_reject reason actor now :
  keeps_identity (Registration.reject reason actor now).
Proof. done. Qed.
Lemma keeps_identity_cancel reason : keeps_identity (Registration.cancel reason).
Proof. done. Qed.
Lemma keeps_identity_markAttendance present now :
  keeps_identity (Registration.markAttendance present now).
Proof. done. Qed.
Lemma keeps_identity_location l :
  keeps_identity (Registration.set_checkIn_location l).
Proof. done. Qed.

Lemma bulk_loop_safe actor approved reason now items : ∀ results,
  safe (bulk_loop actor approved reason now items results).
Proof.
  induction items as [| [r ev] rest IH]; intros results; [constructor |].
  rewrite bulk_loop_cons. apply safe_bind; [| apply IH].
  unfold bulk_iteration. apply safe_try_catch; [| constructor].
  destruct approved.
  - constructor; [apply keeps_identity_approve | constructor].
  - constructor; [apply keeps_identity_reject |]. intros _.
    destruct ev; repeat constructor.
Qed.

(** The saves of the five routes only assign to fields other than [_id],
    [user] and [event]. *)
Lemma handler_safe req : safe (handler req).
Proof.
  destruct req as [user eventId now newId | actor id approved reason now
    | actor id present location now | actor id reason
    | actor registrationIds approved reason now]; cbn [handler].
  - apply safe_try_catch; [| constructor].
    unfold register_body. constructor; [done |]. intros [event|]; [| constructor].
    destruct (negb _); [constructor |]. destruct (negb _); [constructor |].
    constructor; [done |]. intros existing.
    destruct (bool_decide _); [constructor |].
    destruct (match Event.deadline _ with Some _ => _ | None => _ end);
      [constructor |].
    constructor; [done |]. intros count. destruct (_ >=? _); [constructor |].
    constructor; [done |]. intros [e|]; repeat constructor.
  - apply safe_try_catch; [| constructor].
    unfold approval_body. constructor; [done |].
    intros [[r [event|]]|]; try constructor.
    destruct (negb _); [constructor |]. destruct (negb _); [constructor |].
    destruct approved.
    + constructor; [apply keeps_identity_approve | constructor].
    + constructor; [apply keeps_identity_reject | repeat constructor].
  - apply safe_try_catch; [| constructor].
    unfold attendance_body. constructor; [done |].
    intros [[r [event|]]|]; try constructor.
    destruct (negb _); [constructor |]. destruct (negb _); [constructor |].
    constructor; [apply keeps_identity_markAttendance |]. intros _.
    destruct location as [l|]; [| constructor].
    destruct (truthy present); [| constructor].
    constructor; [apply keeps_identity_location | constructor].
  - apply safe_try_catch; [| constructor].
    unfold cancel_body. constructor; [done |].
    intros [[r event]|]; [| constructor].
    destruct (canCancel r event actor) as [[|]|]; try constructor.
    + apply keeps_identity_cancel.
    + intros _. destruct event; repeat constructor.
  - apply safe_try_catch; [| constructor].
    unfold bulk_approve_body. destruct registrationIds as [l|]; [| constructor].
    constructor; [done |]. intros found.
    apply safe_bind; [apply bulk_loop_safe | constructor].
Qed.

Lemma handlers_safe reqs : Forall safe (handler <$> reqs).
Proof. apply Forall_fmap, Forall_forall. intros req _. apply handler_safe. Qed.

(** However the awaited operations of any number of requests interleave, the
    collection never holds two registrations with the same id, nor two
    registrations of the same user for the same event. *)
Theorem no_interleaving_breaks_unique_index reqs schedule db :
  unique_index db →
  unique_index (interleave schedule (handler <$> reqs) db).2.
Proof.
  intros Hu. apply (interleave_keeps unique_index); [| apply handlers_safe | done].
  intros A op db'. apply exec_unique_index.
Qed.

Lemma no_interleaving_breaks_unique_index_sample :
  unique_index
    (interleave [0; 1; 0; 1; 0; 1; 0; 1; 0; 1; 0; 1]%nat
       (handler <$> [Register Sample.alice "e1" 5 "r1";
                     Register Sample.alice "e1" 6 "r2"])
       (Sample.store (Sample.event 4 0 None) [])).2.
Proof.
  apply no_interleaving_breaks_unique_index.
  split; apply NoDup_nil_2.
Defined.

(** However the awaited operations of any number of requests interleave, no
    registration is removed or reordered, none changes its id, user or
    event, and no event is created, removed or changed in anything but its
    count. *)
Theorem no_interleaving_rewrites_history reqs schedule db :
  grows db (interleave schedule (handler <$> reqs) db).2.
Proof.
  apply (interleave_keeps (grows db)); [| apply handlers_safe | apply grows_refl].
  intros A op db' Hop Hg. eapply grows_trans; [exact Hg | by apply exec_grows].
Qed.

(** ** Who may manage whom *)

(** [canManage] orders users by the rank of their role: it is reflexive,
    transitive and total; an admin can manage everybody and everybody can
    manage a student; and two users can manage each other exactly when they
    have the same role. *)
Theorem canManage_ranks_users (a b c : User.t) :
  UserRoles.canManage a a = true
  ∧ (UserRoles.canManage a b = true → UserRoles.canManage b c = true →
     UserRoles.canManage a c = true)
  ∧ (UserRoles.canManage a b = true ∨ UserRoles.canManage b a = true)
  ∧ (User.role a = role_admin → UserRoles.canManage a b = true)
  ∧ (User.role b = role_student → UserRoles.canManage a b = true)
  ∧ (UserRoles.canManage a b = true ∧ UserRoles.canManage b a = true
     ↔ User.role a = User.role b).
Proof.
  unfold UserRoles.canManage.
  assert (Hrange : ∀ r, 1 ≤ UserRoles.getRoleHierarchy r ≤ 8)
    by (intros []; simpl; lia).
  assert (Hinj : ∀ r1 r2,
            UserRoles.getRoleHierarchy r1 = UserRoles.getRoleHierarchy r2 →
            r1 = r2)
    by (intros [] []; simpl; intros; congruence).
  pose proof (Hrange (User.role a)). pose proof (Hrange (User.role b)).
  repeat split.
  - lia.
  - lia.
  - lia.
  - intros ->. simpl. lia.
  - intros ->. simpl. lia.
  - intros [H1 H2]. apply Hinj. lia.
  - rewrite H1. lia.
  - rewrite H1. lia.
Qed.

Lemma canManage_ranks_users_sample :
  UserRoles.canManage Sample.olga Sample.alice = true.
Proof.
  destruct (canManage_ranks_users Sample.olga Sample.alice Sample.alice)
    as (_ & _ & _ & _ & Hstudent & _).
  apply Hstudent. reflexivity.
Defined.

(** ** The schedule virtuals *)

(** When an event starts no later than it ends, exactly one of
    [isUpcoming], [isOngoing] and [isPast] holds at any instant.  When it
    ends before it starts, it is never ongoing, and between the two dates it
    is both upcoming and past. *)
Theorem schedule_virtuals_partition now (schedule : EventSchedule.t) :
  let upcoming := EventSchedule.isUpcoming now schedule in
  let ongoing := EventSchedule.isOngoing now schedule in
  let past := EventSchedule.isPast now schedule in
  (EventSchedule.startDate schedule ≤ EventSchedule.endDate schedule →
   (upcoming = true ∧ ongoing = false ∧ past = false)
   ∨ (upcoming = false ∧ ongoing = true ∧ past = false)
   ∨ (upcoming = false ∧ ongoing = false ∧ past = true))
  ∧ (EventSchedule.endDate schedule < EventSchedule.startDate schedule →
     ongoing = false
     ∧ (EventSchedule.endDate schedule < now < EventSchedule.startDate schedule →
        upcoming = true ∧ past = true)).
Proof.
  unfold EventSchedule.isUpcoming, EventSchedule.isOngoing, EventSchedule.isPast.
  cbv zeta. split; intros Horder.
  - destruct (Z.ltb_spec now (EventSchedule.startDate schedule));
      destruct (Z.ltb_spec (EventSchedule.endDate schedule) now);
      destruct (Z.geb_spec now (EventSchedule.startDate schedule));
      destruct (Z.leb_spec now (EventSchedule.endDate schedule));
      simpl; try lia; auto.
  - destruct (Z.ltb_spec now (EventSchedule.startDate schedule));
      destruct (Z.ltb_spec (EventSchedule.endDate schedule) now);
      destruct (Z.geb_spec now (EventSchedule.startDate schedule));
      destruct (Z.leb_spec now (EventSchedule.endDate schedule));
      simpl; try lia; (split; [done |]); intros; try lia; auto.
Qed.

Lemma schedule_virtuals_partition_sample :
  EventSchedule.isOngoing 150 (EventSchedule.mk 200 100) = false
  ∧ EventSchedule.isUpcoming 150 (EventSchedule.mk 200 100) = true
  ∧ EventSchedule.isPast 150 (EventSchedule.mk 200 100) = true.
Proof.
  destruct (schedule_virtuals_partition 150 (EventSchedule.mk 200 100))
    as [_ Hreversed].
  destruct Hreversed as [Hongoing Hboth]; [simpl; lia |].
  split; [exact Hongoing |]. apply Hboth. simpl. lia.
Defined.

(** ** Eligibility *)

Lemma restriction_passed {A} `{EqDecision A} (l : list A) (x : option A) :
  (0 <? Z.of_nat (length l))
  && negb (match x with Some v => bool_decide (v ∈ l) | None => false end)
  = false
  ↔ l = [] ∨ ∃ v, x = Some v ∧ v ∈ l.
Proof.
  destruct l as [| a l].
  - split; [by left | done].
  - replace (0 <? Z.of_nat (length (a :: l))) with true
      by (symmetry; apply Z.ltb_lt; simpl; lia).
    rewrite andb_true_l, negb_false_iff. destruct x as [v|].
    + rewrite bool_decide_eq_true. split; [eauto |].
      by intros [? | (v' & [= <-] & ?)].
    + split; [done |]. by intros [? | (v' & ? & ?)].
Qed.

(** [canUserRegister] lets a user in exactly when each restriction list of
    the event is empty or holds the user's attribute; a user with no
    department (or no year) is therefore turned away by every event that
    restricts departments (or years). *)
Theorem canUserRegister_iff (e : Event.t) (u : User.t) :
  let r := Event.registration e in
  Event.canUserRegister e u = true
  ↔ (Event.allowedRoles r = [] ∨ User.role u ∈ Event.allowedRoles r)
    ∧ (Event.allowedDepartments r = []
       ∨ ∃ d, User.department u = Some d ∧ d ∈ Event.allowedDepartments r)
    ∧ (Event.allowedYears r = []
       ∨ ∃ y, User.year u = Some y ∧ y ∈ Event.allowedYears r).
Proof.
  cbv zeta. unfold Event.canUserRegister.
  pose proof (restriction_passed (Event.allowedRoles (Event.registration e))
                (Some (User.role u))) as Hroles.
  pose proof (restriction_passed (Event.allowedDepartments (Event.registration e))
                (User.department u)) as Hdeps.
  pose proof (restriction_passed (Event.allowedYears (Event.registration e))
                (User.year u)) as Hyears.
  cbv iota beta in Hroles.
  assert (Hrole : (∃ v, Some (User.role u) = Some v
                        ∧ v ∈ Event.allowedRoles (Event.registration e))
                  ↔ User.role u ∈ Event.allowedRoles (Event.registration e)).
  { split; [by intros (v & [= <-] & ?) | eauto]. }
  rewrite Hrole in Hroles. rewrite <- Hroles, <- Hdeps, <- Hyears.
  destruct (_ && _); [by split; [| intros (? & _)] |].
  destruct (_ && _); [by split; [| intros (_ & ? & _)] |].
  destruct (_ && _); [by split; [| intros (_ & _ & ?)] | done].
Qed.

Lemma canUserRegister_iff_sample :
  Event.canUserRegister
    (Event.mk "016a" [] (Event.mkReg 10 0 false None 0 [] ["d1"] []) Event.published)
    Sample.alice = false.
Proof.
  apply not_true_is_false. intros H.
  apply (canUserRegister_iff
           (Event.mk "016a" [] (Event.mkReg 10 0 false None 0 [] ["d1"] [])
                     Event.published) Sample.alice) in H.
  destruct H as (_ & [Hnil | (d & Hd & _)] & _); discriminate.
Defined.

(** ** The listener table of the socket service *)

Lemma emit_on event callback (ws : WebSocketService.t) :
  WebSocketService.emit event (WebSocketService.on event callback ws)
  = if bool_decide (callback ∈ WebSocketService.emit event ws)
    then WebSocketService.emit event ws
    else WebSocketService.emit event ws ++ [callback].
Proof.
  unfold WebSocketService.emit, WebSocketService.on.
  cbn [WebSocketService.listeners]. by rewrite lookup_insert_eq.
Qed.

Lemma emit_off event callback (ws : WebSocketService.t) :
  WebSocketService.emit event (WebSocketService.off event callback ws)
  = List.filter (λ c, negb (bool_decide (c = callback)))
                (WebSocketService.emit event ws).
Proof.
  unfold WebSocketService.emit, WebSocketService.off.
  destruct (WebSocketService.listeners ws !! event) as [l|] eqn:Hl.
  - cbn [WebSocketService.listeners]. by rewrite lookup_insert_eq.
  - by rewrite Hl.
Qed.

Lemma emit_other event other callback (ws : WebSocketService.t) :
  other ≠ event →
  WebSocketService.emit other (WebSocketService.on event callback ws)
    = WebSocketService.emit other ws
  ∧ WebSocketService.emit other (WebSocketService.off event callback ws)
    = WebSocketService.emit other ws.
Proof.
  intros Hne. unfold WebSocketService.emit, WebSocketService.on,
    WebSocketService.off. split.
  - cbn [WebSocketService.listeners]. by rewrite lookup_insert_ne.
  - destruct (WebSocketService.listeners ws !! event) as [l|]; [| done].
    cbn [WebSocketService.listeners]. by rewrite lookup_insert_ne.
Qed.

Lemma elem_of_without (callback c : nat) (l : list nat) :
  c ∈ List.filter (λ c, negb (bool_decide (c = callback))) l
  ↔ c ≠ callback ∧ c ∈ l.
Proof.
  rewrite !list_elem_of_In, filter_In. split.
  - intros [Hin Hc]. split; [| done]. intros ->.
    by rewrite bool_decide_eq_true_2 in Hc.
  - intros [Hne Hin]. split; [done |]. by rewrite bool_decide_eq_false_2.
Qed.

Lemma NoDup_without (callback : nat) (l : list nat) :
  NoDup l → NoDup (List.filter (λ c, negb (bool_decide (c = callback))) l).
Proof.
  induction 1 as [| a l Ha Hl IH]; [constructor |].
  cbn [List.filter]. destruct (negb _); [| done].
  constructor; [| done]. rewrite elem_of_without. tauto.
Qed.

(** The listeners of an event behave as a set: after [on] the callbacks of
    the event are the former ones and the new one, after [off] the former
    ones but the removed one; neither touches another event; and a table in
    which no callback is listed twice stays so, so that [emit] runs each
    callback at most once. *)
Theorem listeners_form_a_set event callback (ws : WebSocketService.t) :
  (∀ c, c ∈ WebSocketService.emit event (WebSocketService.on event callback ws)
        ↔ c = callback ∨ c ∈ WebSocketService.emit event ws)
  ∧ (∀ c, c ∈ WebSocketService.emit event (WebSocketService.off event callback ws)
          ↔ c ≠ callback ∧ c ∈ WebSocketService.emit event ws)
  ∧ (∀ other, other ≠ event →
       WebSocketService.emit other (WebSocketService.on event callback ws)
         = WebSocketService.emit other ws
       ∧ WebSocketService.emit other (WebSocketService.off event callback ws)
         = WebSocketService.emit other ws)
  ∧ (NoDup (WebSocketService.emit event ws) →
     NoDup (WebSocketService.emit event (WebSocketService.on event callback ws))
     ∧ NoDup (WebSocketService.emit event
                (WebSocketService.off event callback ws))).
Proof.
  split; [| split; [| split]].
  - intros c. rewrite emit_on. case_bool_decide as Hin.
    + split; [auto |]. by intros [-> | Hc].
    + rewrite elem_of_app, list_elem_of_singleton. tauto.
  - intros c. rewrite emit_off. apply elem_of_without.
  - intros other Hne. by apply emit_other.
  - intros Hnd. rewrite emit_on, emit_off. split.
    + case_bool_decide as Hin; [done |].
      apply NoDup_app. split; [done |]. split; [| apply NoDup_singleton].
      intros c Hc Hc'. apply list_elem_of_singleton in Hc'. by subst c.
    + by apply NoDup_without.
Qed.

Lemma listeners_form_a_set_sample :
  NoDup (WebSocketService.emit "new-registration"
           (WebSocketService.on "new-registration" 1%nat
              (WebSocketService.on "new-registration" 1%nat
                 (WebSocketService.mk None ∅)))).
Proof.
  apply (listeners_form_a_set "new-registration" 1%nat
           (WebSocketService.on "new-registration" 1%nat
              (WebSocketService.mk None ∅))).
  apply (bool_decide_unpack _). by vm_compute.
Defined.

(** ** Reconnecting *)

Lemma closes_S n this :
  Reconnect.closes (S n) this = Reconnect.onclose (Reconnect.closes n this).
Proof. done. Qed.

(** After [n] close events in a row on a service whose attempt counter was
    at 0, the counter is [min n 5]; the timer armed by the [n]-th of the
    first five waits [3000 * n] milliseconds; and from the fifth on, a close
    event changes nothing, so no further reconnection is scheduled. *)
Theorem reconnect_backs_off_and_gives_up n (this : Reconnect.t) :
  Reconnect.reconnectAttempts this = 0 →
  Reconnect.reconnectAttempts (Reconnect.closes n this) = Z.min (Z.of_nat n) 5
  ∧ (1 ≤ Z.of_nat n ≤ 5 →
     Reconnect.reconnectTimeout (Reconnect.closes n this)
     = Some (3000 * Z.of_nat n))
  ∧ (5 ≤ Z.of_nat n →
     Reconnect.closes (S n) this = Reconnect.closes n this).
Proof.
  intros Hzero.
  assert (Hcount : ∀ k,
    Reconnect.reconnectAttempts (Reconnect.closes k this) = Z.min (Z.of_nat k) 5).
  { induction k as [| k IH]; [simpl; rewrite Hzero; lia |].
    rewrite closes_S. unfold Reconnect.onclose, Reconnect.attemptReconnect.
    rewrite IH. unfold Reconnect.maxReconnectAttempts.
    destruct (Z.ltb_spec (Z.min (Z.of_nat k) 5) 5); simpl; [| rewrite IH]; lia. }
  split; [apply Hcount |]. split.
  - intros Hn. destruct n as [| n]; [lia |].
    rewrite closes_S. unfold Reconnect.onclose, Reconnect.attemptReconnect.
    rewrite Hcount. unfold Reconnect.maxReconnectAttempts.
    destruct (Z.ltb_spec (Z.min (Z.of_nat n) 5) 5); simpl; [| lia].
    f_equal. lia.
  - intros Hn. rewrite closes_S.
    unfold Reconnect.onclose, Reconnect.attemptReconnect.
    rewrite Hcount. unfold Reconnect.maxReconnectAttempts.
    destruct (Z.ltb_spec (Z.min (Z.of_nat n) 5) 5); [lia | done].
Qed.

Lemma reconnect_backs_off_and_gives_up_sample :
  Reconnect.reconnectAttempts (Reconnect.closes 7 (Reconnect.mk 0 None)) = 5
  ∧ Reconnect.reconnectTimeout (Reconnect.closes 3 (Reconnect.mk 0 None))
    = Some 9000
  ∧ Reconnect.closes 8 (Reconnect.mk 0 None)
    = Reconnect.closes 7 (Reconnect.mk 0 None).
Proof.
  destruct (reconnect_backs_off_and_gives_up 7 (Reconnect.mk 0 None))
    as (Hcount & _ & Hstop); [reflexivity |].
  destruct (reconnect_backs_off_and_gives_up 3 (Reconnect.mk 0 None))
    as (_ & Hdelay & _); [reflexivity |].
  split; [exact Hcount |]. split; [apply Hdelay; lia | apply Hstop; lia].
Defined.

(** ** Registration statistics *)

Lemma get_add s s' count (result : Stats.t) :
  Stats.get s (Stats.add result (s', count))
  = if decide (s = s') then count else Stats.get s result.
Proof. by destruct s, s'. Qed.

Lemma total_add s count (result : Stats.t) :
  Stats.total (Stats.add result (s, count)) = Stats.total result + count.
Proof. by destruct s. Qed.

Lemma total_foldl_add (stats : list (Registration.Status * Z)) result :
  Stats.total (foldl Stats.add result stats)
  = Stats.total result + foldr Z.add 0 stats.*2.
Proof.
  revert result. induction stats as [| [s count] stats IH]; intros result.
  - simpl. lia.
  - cbn [foldl]. rewrite IH, total_add. cbn [fmap list_fmap foldr snd]. lia.
Qed.

Lemma get_foldl_add_other s (stats : list (Registration.Status * Z)) result :
  s ∉ stats.*1 → Stats.get s (foldl Stats.add result stats) = Stats.get s result.
Proof.
  revert result. induction stats as [| [s' count] stats IH]; intros result Hs.
  - done.
  - cbn [fmap list_fmap fst] in Hs. apply not_elem_of_cons in Hs as [Hne Hs].
    cbn [foldl]. rewrite IH by done. rewrite get_add.
    by destruct (decide (s = s')).
Qed.

Lemma get_foldl_add s count (stats : list (Registration.Status * Z)) result :
  NoDup stats.*1 → (s, count) ∈ stats →
  Stats.get s (foldl Stats.add result stats) = count.
Proof.
  revert result. induction stats as [| [s' count'] stats IH]; intros result Hnd Hin.
  - inversion Hin.
  - cbn [fmap list_fmap fst] in Hnd. apply NoDup_cons in Hnd as [Hs' Hnd].
    cbn [foldl]. apply elem_of_cons in Hin as [Heq | Hin].
    + injection Heq as <- <-. rewrite get_foldl_add_other by done.
      rewrite get_add. by destruct (decide (s = s)).
    + by apply IH.
Qed.

Lemma sum_Permutation (l k : list Z) :
  l ≡ₚ k → foldr Z.add 0 l = foldr Z.add 0 k.
Proof. induction 1; simpl; lia. Qed.

Lemma sum_positive_groups (groups : list (Registration.Status * Z)) :
  Forall (λ stat, 0 ≤ stat.2) groups →
  foldr Z.add 0 (List.filter (λ stat, 0 <? stat.2) groups).*2
  = foldr Z.add 0 groups.*2.
Proof.
  induction 1 as [| [s count] groups Hcount _ IH]; [done |].
  cbn [List.filter snd]. cbn [snd] in Hcount.
  destruct (Z.ltb_spec 0 count); cbn [fmap list_fmap foldr snd];
    fold (@fmap list _ _ _ (@snd Registration.Status Z)); rewrite IH; lia.
Qed.

Lemma count_status_total eventId (db : DB) :
  foldr Z.add 0 ((λ s, (s, count_status eventId s db)) <$> all_statuses).*2
  = Z.of_nat (length (List.filter
      (λ r, bool_decide (Registration.event r = eventId)) (registrations db))).
Proof.
  unfold count_status, all_statuses. cbn [fmap list_fmap foldr snd].
  induction (registrations db) as [| r rs IH]; [done |].
  cbn [List.filter]. destruct (bool_decide (Registration.event r = eventId));
    cbn [andb]; [| exact IH].
  destruct (Registration.status r) eqn:Hs;
    repeat (rewrite ?bool_decide_eq_true_2 by done;
            rewrite ?bool_decide_eq_false_2 by done);
    cbn [length]; lia.
Qed.

Lemma aggregate_by_status_spec eventId (db : DB) s count :
  (s, count) ∈ aggregate_by_status eventId db
  ↔ count = count_status eventId s db ∧ 0 < count.
Proof.
  unfold aggregate_by_status. rewrite list_elem_of_In, filter_In.
  rewrite <- list_elem_of_In, list_elem_of_fmap. cbn [snd]. split.
  - intros [(s' & Heq & _) Hpos]. injection Heq as -> ->. split; [done | lia].
  - intros [-> Hpos]. split; [| lia]. exists s. split; [done |].
    unfold all_statuses. destruct s; set_solver.
Qed.

Lemma aggregate_by_status_NoDup eventId (db : DB) :
  NoDup (aggregate_by_status eventId db).*1.
Proof.
  unfold aggregate_by_status, all_statuses. cbn [fmap list_fmap List.filter snd].
  repeat match goal with
  | |- context [0 <? ?c] => destruct (0 <? c)
  end; cbn [fmap list_fmap fst]; apply (bool_decide_unpack _); by vm_compute.
Qed.

(** [getRegistrationStats] reports, for each of the six statuses, the number
    of registrations of the event in that status, and as [total] the number
    of registrations of the event, in whatever order the aggregation returns
    its groups. *)
Theorem registration_stats_count_each_status eventId (db : DB) stats :
  stats ≡ₚ aggregate_by_status eventId db →
  (∀ s, Stats.get s (Stats.collect stats) = count_status eventId s db)
  ∧ Stats.total (Stats.collect stats)
    = Z.of_nat (length (List.filter
        (λ r, bool_decide (Registration.event r = eventId)) (registrations db))).
Proof.
  intros Hperm. unfold Stats.collect. split.
  - intros s.
    assert (Hnd : NoDup stats.*1).
    { rewrite Hperm. apply aggregate_by_status_NoDup. }
    destruct (decide (0 < count_status eventId s db)) as [Hpos | Hzero].
    + apply get_foldl_add; [done |]. rewrite Hperm.
      by apply aggregate_by_status_spec.
    + rewrite get_foldl_add_other.
      * unfold count_status in *. destruct s; simpl; lia.
      * intros ((s' & count) & Heq & Hin)%list_elem_of_fmap.
        cbn [fst] in Heq. subst s'. rewrite Hperm in Hin.
        apply aggregate_by_status_spec in Hin as [-> Hpos]. lia.
  - rewrite total_foldl_add, (sum_Permutation _ _ (fmap_Permutation snd _ _ Hperm)).
    unfold aggregate_by_status. rewrite sum_positive_groups.
    + simpl. apply count_status_total.
    + apply Forall_forall. intros [s count] (s' & Heq & _)%list_elem_of_fmap.
      injection Heq as -> ->. cbn [snd]. unfold count_status. lia.
Qed.

Lemma registration_stats_count_each_status_sample :
  Stats.get Registration.approved
    (Stats.collect (reverse (aggregate_by_status "e1"
       (Sample.store (Sample.event 5 3 (Some 100))
          [Sample.registration "r1" "a11ce" Registration.approved;
           Sample.registration "r2" "b0b" Registration.pending;
           Sample.registration "r3" "016a" Registration.approved]))))
  = 2.
Proof.
  apply (registration_stats_count_each_status "e1"
    (Sample.store (Sample.event 5 3 (Some 100))
          [Sample.registration "r1" "a11ce" Registration.approved;
           Sample.registration "r2" "b0b" Registration.pending;
           Sample.registration "r3" "016a" Registration.approved])
    (reverse (aggregate_by_status "e1"
       (Sample.store (Sample.event 5 3 (Some 100))
          [Sample.registration "r1" "a11ce" Registration.approved;
           Sample.registration "r2" "b0b" Registration.pending;
           Sample.registration "r3" "016a" Registration.approved])))).
  apply reverse_Permutation.
Defined.

(** ** Listing registrations *)

Lemma list_filter_with_page page user q :
  list_filter user (with_page page q) = list_filter user q.
Proof. done. Qed.

Lemma list_registrations_with_page sort_by_date_desc page user q (db : DB) :
  list_registrations sort_by_date_desc user (with_page page q) db
  = mkListReply
      (take (Z.to_nat (default 20 (lq_limit q)))
         (drop (Z.to_nat ((page - 1) * default 20 (lq_limit q)))
            (sort_by_date_desc
               (List.filter (list_filter user q) (registrations db)))))
      (mkPagination page
         ((Z.of_nat (length (List.filter (list_filter user q) (registrations db)))
           + default 20 (lq_limit q) - 1) / default 20 (lq_limit q))
         (Z.of_nat (length (List.filter (list_filter user q) (registrations db))))
         (default 20 (lq_limit q))).
Proof. done. Qed.

Lemma pages_concat {A} (limit : nat) (l : list A) (pages : nat) :
  concat ((λ page, take limit (drop ((page - 1) * limit) l)) <$> seq 1 pages)
  = take (pages * limit) l.
Proof.
  induction pages as [| pages IH]; [done |].
  rewrite seq_S, fmap_app, concat_app, IH.
  cbn [fmap list_fmap concat]. rewrite app_nil_r.
  replace (1 + pages - 1)%nat with pages by lia.
  rewrite take_take_drop. f_equal. lia.
Qed.

Lemma pages_cover (total limit : Z) :
  0 ≤ total → 1 ≤ limit →
  0 ≤ (total + limit - 1) / limit ∧ total ≤ (total + limit - 1) / limit * limit.
Proof.
  intros Htotal Hlimit.
  pose proof (Z.div_mod (total + limit - 1) limit ltac:(lia)) as Hdiv.
  pose proof (Z.mod_pos_bound (total + limit - 1) limit ltac:(lia)) as Hmod.
  split; [apply Z.div_pos; lia | lia].
Qed.

(** Whatever the query string, a student is listed only registrations of
    their own; and for a caller who is neither a student nor an admin and
    does not hold [manage_users], the [userId] of the query is ignored: the
    reply is the one to the same query without it. *)
Theorem listing_access sort_by_date_desc (user : User.t) (q : ListQuery) (db : DB) :
  (∀ l, sort_by_date_desc l ≡ₚ l) →
  (User.role user = role_student →
   ∀ r, r ∈ lr_registrations (list_registrations sort_by_date_desc user q db) →
        Registration.user r = User._id user)
  ∧ (User.role user ≠ role_student → User.role user ≠ role_admin →
     User.hasPermission user "manage_users" = false →
     list_registrations sort_by_date_desc user q db
     = list_registrations sort_by_date_desc user (without_userId q) db).
Proof.
  intros Hsort. split.
  - intros Hrole r Hr. unfold list_registrations in Hr. cbn [lr_registrations] in Hr.
    apply subseteq_take, subseteq_drop in Hr. rewrite Hsort in Hr.
    apply list_elem_of_In, filter_In in Hr as [_ Hr].
    unfold list_filter, list_filter_user in Hr.
    rewrite (bool_decide_eq_true_2 _ Hrole) in Hr.
    apply andb_prop in Hr as [_ Hr]. by apply bool_decide_eq_true in Hr.
  - intros Hstudent Hadmin Hperm.
    assert (Hfilter : list_filter user q = list_filter user (without_userId q)).
    { unfold list_filter, list_filter_user, without_userId.
      cbn [lq_status lq_eventId lq_userId].
      rewrite (bool_decide_eq_false_2 _ Hstudent),
        (bool_decide_eq_false_2 _ Hadmin), Hperm.
      by destruct (lq_userId q). }
    unfold list_registrations. by rewrite Hfilter.
Qed.

Lemma listing_access_sample :
  Forall (λ r, Registration.user r = "a11ce")
    (lr_registrations (list_registrations reverse Sample.alice
       (mkListQuery None None None None (Some "b0b"))
       (Sample.store (Sample.event 5 2 (Some 100))
          [Sample.registration "r1" "a11ce" Registration.approved;
           Sample.registration "r2" "b0b" Registration.pending]))).
Proof.
  apply Forall_forall.
  apply (listing_access reverse Sample.alice
           (mkListQuery None None None None (Some "b0b"))
           (Sample.store (Sample.event 5 2 (Some 100))
              [Sample.registration "r1" "a11ce" Registration.approved;
               Sample.registration "r2" "b0b" Registration.pending])).
  - intros l. apply reverse_Permutation.
  - reflexivity.
Defined.

(** For a limit of at least 1, the pages of a listing partition it: no page
    is longer than the limit, the pages 1 to [pages] of the reply, one after
    the other, are the sorted list of all the registrations that pass the
    filter, [total] is their number, and every later page is empty. *)
Theorem pages_partition_the_listing sort_by_date_desc (user : User.t)
    (q : ListQuery) (db : DB) :
  (∀ l, sort_by_date_desc l ≡ₚ l) →
  1 ≤ default 20 (lq_limit q) →
  let reply page := list_registrations sort_by_date_desc user (with_page page q) db in
  let found :=
    sort_by_date_desc (List.filter (list_filter user q) (registrations db)) in
  let pages := pg_pages (lr_pagination (reply 1)) in
  (∀ page, Z.of_nat (length (lr_registrations (reply page)))
           ≤ default 20 (lq_limit q)
           ∧ pg_total (lr_pagination (reply page)) = Z.of_nat (length found)
           ∧ pg_pages (lr_pagination (reply page)) = pages)
  ∧ concat ((λ page, lr_registrations (reply (Z.of_nat page)))
              <$> seq 1 (Z.to_nat pages)) = found
  ∧ (∀ page, pages < page → lr_registrations (reply page) = []).
Proof.
  intros Hsort Hlimit reply found pages.
  assert (Hlen : length found
                 = length (List.filter (list_filter user q) (registrations db))).
  { unfold found. by rewrite Hsort. }
  assert (Hpages : pages = (Z.of_nat (length found) + default 20 (lq_limit q) - 1)
                           / default 20 (lq_limit q)).
  { unfold pages, reply. rewrite list_registrations_with_page.
    cbn [lr_pagination pg_pages]. by rewrite Hlen. }
  destruct (pages_cover (Z.of_nat (length found)) (default 20 (lq_limit q))
              ltac:(lia) Hlimit) as [Hpos Hcover].
  rewrite <- Hpages in Hpos, Hcover. clearbody pages.
  split; [| split].
  - intros page. unfold reply. rewrite list_registrations_with_page.
    cbn [lr_registrations lr_pagination pg_total pg_pages].
    rewrite length_take, <- Hlen. fold found.
    split; [lia |]. split; [done |]. by rewrite Hpages.
  - rewrite (Forall_fmap_ext_1 _
      (λ page, take (Z.to_nat (default 20 (lq_limit q)))
                 (drop ((page - 1) * Z.to_nat (default 20 (lq_limit q))) found))).
    + rewrite pages_concat. apply take_ge.
      rewrite <- Z2Nat.inj_mul by lia.
      apply Nat2Z.inj_le. rewrite Z2Nat.id by nia. exact Hcover.
    + apply Forall_seq. intros page Hpage.
      unfold reply. rewrite list_registrations_with_page.
      cbn [lr_registrations]. fold found. do 2 f_equal.
      rewrite Z2Nat.inj_mul by lia. f_equal. lia.
  - intros page Hpage. unfold reply. rewrite list_registrations_with_page.
    cbn [lr_registrations]. fold found.
    rewrite drop_ge; [apply take_nil |].
    assert (pages * default 20 (lq_limit q)
            ≤ (page - 1) * default 20 (lq_limit q)) by nia.
    apply Nat2Z.inj_le. rewrite Z2Nat.id by nia. lia.
Qed.

Lemma pages_partition_the_listing_sample :
  concat ((λ page, lr_registrations
             (list_registrations reverse Sample.olga
                (with_page (Z.of_nat page)
                   (mkListQuery None (Some 2) None None None))
                (Sample.store (Sample.event 5 3 (Some 100))
                   [Sample.registration "r1" "a11ce" Registration.approved;
                    Sample.registration "r2" "b0b" Registration.pending;
                    Sample.registration "r3" "016a" Registration.approved])))
            <$> seq 1 2)
  = [Sample.registration "r3" "016a" Registration.approved;
     Sample.registration "r2" "b0b" Registration.pending;
     Sample.registration "r1" "a11ce" Registration.approved].
Proof.
  apply (pages_partition_the_listing reverse Sample.olga
           (mkListQuery None (Some 2) None None None)
           (Sample.store (Sample.event 5 3 (Some 100))
              [Sample.registration "r1" "a11ce" Registration.approved;
               Sample.registration "r2" "b0b" Registration.pending;
               Sample.registration "r3" "016a" Registration.approved])).
  - intros l. apply reverse_Permutation.
  - simpl. lia.
Defined.

(** ** What stays settled *)

Lemma grows_registered userId eventId db db' r :
  grows db db' → r ∈ registrations db → registered userId eventId r →
  ∃ r', r' ∈ registrations db' ∧ registered userId eventId r'.
Proof.
  intros [[added Hadded] _] Hr [Hu He].
  assert (Hin : identity r ∈ identity <$> registrations db').
  { rewrite Hadded. apply elem_of_app. left. by apply list_elem_of_fmap_2. }
  apply list_elem_of_fmap in Hin as (r' & Heq & Hr').
  exists r'. split; [done |]. unfold identity in Heq.
  injection Heq as _ Hu' He'. split; congruence.
Qed.

Lemma grows_admissible user eventId db db' event :
  grows db db' → admissible user eventId db event →
  ∃ event', admissible user eventId db' event'.
Proof.
  intros [_ Hevents] (Hev & Hst & Hel). specialize (Hevents eventId).
  rewrite Hev in Hevents.
  destruct (events db' !! eventId) as [event'|] eqn:Hev'; [| done].
  destruct Hevents as [delta ->]. exists (Event.inc_currentCount delta event).
  repeat split; done.
Qed.

(** Once a user holds a registration for an event they may register for, no
    requests, however their awaited operations interleave, lead to a store in
    which the user can register for it again: the register route answers
    "You are already registered for this event" and writes nothing. *)
Theorem registration_is_never_forgotten user eventId now newId reqs schedule
    db event :
  admissible user eventId db event →
  (∃ r, r ∈ registrations db ∧ registered (User._id user) eventId r) →
  let db' := (interleave schedule (handler <$> reqs) db).2 in
  serve (Register user eventId now newId) db'
  = mkOutcome db' [] (Done (AlreadyRegistered, [])).
Proof.
  intros Hadm (r & Hr & Hreg) db'.
  assert (Hg : grows db db').
  { apply (interleave_keeps (grows db));
      [| apply handlers_safe | apply grows_refl].
    intros A op db1 Hop Hg. eapply grows_trans; [exact Hg | by apply exec_grows]. }
  destruct (grows_admissible _ _ _ _ _ Hg Hadm) as [event' Hadm'].
  destruct (grows_registered _ _ _ _ _ Hg Hr Hreg) as (r' & Hr' & Hreg').
  by apply (register_existing user eventId now newId db' event' r').
Qed.

Lemma registration_is_never_forgotten_sample :
  let db' := (interleave [1; 0; 1; 0; 1; 0; 1; 0]%nat
                (handler <$> [Cancel Sample.alice "r0" None;
                              Decide Sample.olga "r0" false None 7])
                (Sample.store (Sample.event 10 1 None)
                   [Sample.registration "r0" "a11ce" Registration.pending])).2 in
  serve (Register Sample.alice "e1" 9 "r1") db'
  = mkOutcome db' [] (Done (AlreadyRegistered, [])).
Proof.
  apply (registration_is_never_forgotten Sample.alice "e1" 9 "r1" _ _ _
           (Sample.event 10 1 None)).
  - repeat split; reflexivity.
  - exists (Sample.registration "r0" "a11ce" Registration.pending).
    split; [apply list_elem_of_here | split; reflexivity].
Defined.

Lemma reaches_refl s : reaches s s = true.
Proof. by destruct s. Qed.

Lemma serve_reaches id req db s :
  well_formed db → status_of id db = Some s →
  ∃ s1, status_of id (out_db (serve req db)) = Some s1
        ∧ ∀ s', reaches s1 s' = true → reaches s s' = true.
Proof.
  intros Hwf Hs. pose proof (serve_transition id req db Hwf) as Ht.
  rewrite Hs in Ht.
  destruct Ht as [[Ha _] | [[Hb _] | [(Hb & Ha & _) | [(Hb & Ha & _)
    | [(Hb & Ha & _) | [(Hb & Ha & _) | (_ & _ & Ha & _)]]]]]];
    try discriminate Hb; try (injection Hb as ->);
    eexists; (split; [exact Ha |]); intros s'; destruct s'; try done;
    destruct s; done.
Qed.

Lemma serve_all_reaches reqs : ∀ id db s,
  well_formed db → status_of id db = Some s →
  ∃ s', status_of id (serve_all reqs db) = Some s' ∧ reaches s s' = true.
Proof.
  induction reqs as [| req reqs IH]; intros id db s Hwf Hs.
  - exists s. split; [done | apply reaches_refl].
  - rewrite serve_all_cons.
    destruct (serve_reaches id req db s Hwf Hs) as (s1 & Hs1 & Hthen).
    destruct (IH id _ s1 (serve_well_formed req db Hwf) Hs1) as (s' & Hs' & Hr).
    exists s'. split; [done | by apply Hthen].
Qed.

(** Requests served one after the other never reopen a registration: it stays
    in the store; once it is no longer pending it never is again; once
    rejected, attended or absent it keeps that status or becomes cancelled;
    and once cancelled it stays cancelled. *)
Theorem serial_runs_never_reopen id reqs db s :
  well_formed db → status_of id db = Some s →
  ∃ s', status_of id (serve_all reqs db) = Some s'
        ∧ (s ≠ Registration.pending → s' ≠ Registration.pending)
        ∧ (s ≠ Registration.pending → s ≠ Registration.approved →
           s' = s ∨ s' = Registration.cancelled)
        ∧ (s = Registration.cancelled → s' = Registration.cancelled).
Proof.
  intros Hwf Hs.
  destruct (serve_all_reaches reqs id db s Hwf Hs) as (s' & Hs' & Hr).
  exists s'. split; [done |].
  destruct s, s'; try discriminate Hr; repeat split; intros; try done; auto.
Qed.

Lemma serial_runs_never_reopen_sample :
  ∃ s', status_of "r0"
          (serve_all [Decide Sample.olga "r0" true None 7;
                      MarkAttendance Sample.olga "r0" (Some true) None 8;
                      Cancel Sample.alice "r0" None]
             (Sample.store (Sample.event 5 0 None)
                [Sample.registration "r0" "a11ce" Registration.rejected]))
        = Some s'
        ∧ s' ≠ Registration.pending
        ∧ (s' = Registration.rejected ∨ s' = Registration.cancelled).
Proof.
  destruct (serial_runs_never_reopen "r0"
              [Decide Sample.olga "r0" true None 7;
               MarkAttendance Sample.olga "r0" (Some true) None 8;
               Cancel Sample.alice "r0" None]
              (Sample.store (Sample.event 5 0 None)
                 [Sample.registration "r0" "a11ce" Registration.rejected])
              Registration.rejected)
    as (s' & Hs' & Hclosed & Hkept & _).
  - apply well_formed_sample.
    + apply (bool_decide_unpack _). by vm_compute.
    + intros r Hr. apply list_elem_of_singleton in Hr. by subst r.
  - reflexivity.
  - exists s'. split; [exact Hs' |]. split; [by apply Hclosed |].
    by apply Hkept.
Defined.
